(** * js-jose: the JWE encryption pipeline of [lib/jose-jwe-encrypt.js]

    The file embeds the two encryption routines of the source, the
    prototype based [JoseJWE.prototype.encrypt] / [encryptPlaintext] and the
    class [Encrypter], together with the part of the JavaScript host they
    rely on (promises, typed arrays, [ArrayBuffer.prototype.slice]).

    Conventions.
    - A byte array ([Uint8Array], [ArrayBuffer]) is a [list Z] of values in
      [0, 256); a store into a [Uint8Array] wraps modulo 256 ([u8]). A
      typed array spans the whole of its buffer, so that [a.buffer] is [a].
    - A promise is represented by its eventual state ([Resolved], [Rejected]
      or [Pending] for one that never settles).
    - Every call to a primitive of the platform ([crypto.subtle.*],
      [crypto.getRandomValues]) or to a method of the cryptographer object
      is appended to a call log threaded through the code ([Eff]); the log
      lists the calls in the order in which the source registers them.
    - The helpers of [jose-utils], [JSON.stringify] and the platform
      primitives are not part of this source file: they are the fields of
      the classes [JoseUtils], [Host] and [WebCrypto], and every statement
      holds for all their implementations unless it names a hypothesis. *)

From Stdlib Require Import ZArith List String Ascii Bool Lia.
Import ListNotations.
Local Open Scope string_scope.
Local Open Scope list_scope.
Local Open Scope Z_scope.

(** ** Byte arrays *)

Definition bytes := list Z.

Definition byteLength (b : bytes) : Z := Z.of_nat (List.length b).

(** Conversion of a number stored into a [Uint8Array] element. *)
Definition u8 (x : Z) : Z := x mod 256.

(** [a[i]] on a typed array; an index out of range reads [undefined], which
    a later store into a [Uint8Array] turns into 0. *)
Definition get_u8 (a : bytes) (i : Z) : Z :=
  if i <? 0 then 0 else nth (Z.to_nat i) a 0.

Fixpoint set_nth (a : bytes) (n : nat) (v : Z) : bytes :=
  match a, n with
  | [], _ => []
  | _ :: t, O => v :: t
  | h :: t, S n' => h :: set_nth t n' v
  end.

(** [a[i] = v] on a [Uint8Array]; a store out of range is ignored. *)
Definition set_u8 (a : bytes) (i : Z) (v : Z) : bytes :=
  if i <? 0 then a else set_nth a (Z.to_nat i) (u8 v).

(** [new Uint8Array(n)]: [n] zero bytes. *)
Definition new_Uint8Array (n : nat) : bytes := repeat 0 n.

(** Resolution of a relative index, as [ArrayBuffer.prototype.slice] does:
    a negative index counts from the end, and the result is clamped to
    [0, len]. *)
Definition relative_index (len k : Z) : Z :=
  if k <? 0 then Z.max (len + k) 0 else Z.min k len.

(** [b.slice(first, final)]. *)
Definition slice (b : bytes) (first final : Z) : bytes :=
  let len := byteLength b in
  let from := relative_index len first in
  let to := relative_index len final in
  firstn (Z.to_nat (Z.max (to - from) 0)) (skipn (Z.to_nat from) b).

(** [b.slice(first)]: the end defaults to the length. *)
Definition slice_from (b : bytes) (first : Z) : bytes :=
  slice b first (byteLength b).

(** [ToIntegerOrInfinity(a / b)] for integers [a] and [b]: the quotient of
    JavaScript numbers, truncated toward zero when it is used as an index. *)
Definition div_to_integer (a b : Z) : Z := Z.quot a b.

(** [a % b != 0] on integers: the remainder takes the sign of [a]. *)
Definition not_multiple_of (a b : Z) : bool := negb (Z.rem a b =? 0).

(** ** Promises and the call log *)

Inductive Promise (A : Type) : Type :=
| Resolved (a : A)
| Rejected (reason : string)
| Pending.

Arguments Resolved {A} a.
Arguments Rejected {A} reason.
Arguments Pending {A}.

(** [Promise.all([p, q])]: resolved once both are, rejected as soon as one
    is. When both are rejected the reason that arrives first wins, which is
    a matter of scheduling; the model reports the one of [p], and no
    statement below depends on that choice. *)
Definition Promise_all {A B} (p : Promise A) (q : Promise B) : Promise (A * B) :=
  match p, q with
  | Rejected r, _ => Rejected r
  | _, Rejected r => Rejected r
  | Resolved a, Resolved b => Resolved (a, b)
  | _, _ => Pending
  end.

(** Code that calls primitives: a state monad over the call log. *)
Definition Eff (E A : Type) : Type := list E -> A * list E.

Definition ret {E A} (a : A) : Eff E A := fun log => (a, log).

Definition bind {E A B} (m : Eff E A) (k : A -> Eff E B) : Eff E B :=
  fun log => let (a, log') := m log in k a log'.

(** One call of a primitive: the call is logged and its result returned. *)
Definition call {E A} (c : E) (r : A) : Eff E A := fun log => (r, log ++ [c]).

Notation "x <- m ;; k" := (bind m (fun x => k))
  (at level 61, m at next level, right associativity).

(** [p.then(f)]: the callback runs only when [p] is resolved, and a promise
    returned by the callback is adopted. *)
Definition then_ {E A B} (p : Promise A) (f : A -> Eff E (Promise B))
  : Eff E (Promise B) :=
  match p with
  | Resolved a => f a
  | Rejected r => ret (Rejected r)
  | Pending => ret Pending
  end.


(** ** Objects with string values

    The header objects of the source ([this.userHeaders], [headers], the
    literal of [encryptPlaintext]) hold strings under string keys. An object
    is the list of its own properties in the order of their creation, which
    is the order of enumeration for names that are not array indices; the
    names are ordinary ones (not [__proto__]). No statement below depends on
    the order. *)

Definition JsObject := list (string * string).

(** [o[k]]. *)
Fixpoint obj_get (o : JsObject) (k : string) : option string :=
  match o with
  | [] => None
  | (k', v) :: t => if String.eqb k' k then Some v else obj_get t k
  end.

(** [o[k] = v]: an existing property keeps its place and takes the new
    value, a new one is added last. *)
Fixpoint obj_set (o : JsObject) (k v : string) : JsObject :=
  match o with
  | [] => [(k, v)]
  | (k', v') :: t =>
      if String.eqb k' k then (k', v) :: t else (k', v') :: obj_set t k v
  end.

(** ** Collaborators that are not part of the source file *)

(** The helpers of [jose-utils] used by the source, in both spellings
    ([JoseJWE.Utils.*] and [Utils.*]). *)
Class JoseUtils : Type := {
  (** [Base64Url.encode(string)] *)
  Base64Url_encode : string -> string;
  (** [Base64Url.encodeArrayBuffer(buffer)] *)
  Base64Url_encodeArrayBuffer : bytes -> string;
  (** [new Base64Url().encodeArray(array)] *)
  Base64Url_encodeArray : bytes -> string;
  (** [arrayFromString(string)] *)
  arrayFromString : string -> bytes;
  (** [arrayFromUtf8String(string)] *)
  arrayFromUtf8String : string -> bytes;
  (** [arrayFromInt32(number)] *)
  arrayFromInt32 : Z -> bytes
}.

(** Modelled from the spec: [JoseJWE.Utils.arrayBufferConcat] of
    [jose-utils], which the specification lists as
    [concatBytes(...buffers) -> bytes]: the buffers one after the other. *)
Definition arrayBufferConcat (buffers : list bytes) : bytes := List.concat buffers.

(** [JSON.stringify] on a header object. *)
Class Host : Type := {
  JSON_stringify : JsObject -> string
}.

(** Algorithm descriptors of the configuration ([config.id],
    [config.auth.id]); [hash] is empty where the algorithm has none. *)
Module Alg.
Record t : Type := { name : string; length : Z; hash : string }.
End Alg.

(** The parameter object handed to [crypto.subtle.encrypt]; the two optional
    members are present on the AEAD path only. *)
Record EncryptParams : Type := {
  enc_name : string;
  enc_iv : bytes;
  additionalData : option bytes;
  tagLength : option Z
}.

(** The platform cryptography provider. Each field gives the eventual
    outcome of the promise the primitive returns. *)
Class WebCrypto (CryptoKey : Type) : Type := {
  crypto_getRandomValues : bytes -> bytes;
  subtle_generateKey : Alg.t -> bool -> list string -> Promise CryptoKey;
  subtle_wrapKey : string -> CryptoKey -> CryptoKey -> Alg.t -> Promise bytes;
  subtle_exportKey : string -> CryptoKey -> Promise bytes;
  subtle_importKey : string -> bytes -> Alg.t -> bool -> list string -> Promise CryptoKey;
  subtle_encrypt : EncryptParams -> CryptoKey -> bytes -> Promise bytes;
  subtle_sign : Alg.t -> CryptoKey -> bytes -> Promise bytes
}.

(** ** The prototype based routine, [JoseJWE.prototype.*] *)

Module JoseJWE.

(** [this.content_encryption.auth] *)
Module Auth.
Record t : Type := {
  aead : bool;
  tag_length : Z;
  key_size : Z;
  truncated_length : Z;
  id : Alg.t
}.
End Auth.

(** [this.content_encryption]; [iv_length] is an array length, the source
    hands it to [new Array]. *)
Module ContentEncryption.
Record t : Type := {
  jwe_name : string;
  id : Alg.t;
  iv_length : nat;
  auth : Auth.t
}.
End ContentEncryption.

(** [this.key_encryption] *)
Module KeyEncryption.
Record t : Type := { jwe_name : string; id : Alg.t }.
End KeyEncryption.

(** What [encryptPlaintext] resolves to. *)
Record Data : Type := {
  header : string;
  iv : bytes;
  cipher : bytes;
  tag : bytes
}.

Section Routine.
Context {CryptoKey : Type} {U : JoseUtils} {H : Host} {W : WebCrypto CryptoKey}.

(** The calls of platform primitives, with their arguments. *)
Inductive Call : Type :=
| GetRandomValues (array : bytes)
| GenerateKey (alg : Alg.t) (extractable : bool) (usages : list string)
| WrapKey (format : string) (key wrappingKey : CryptoKey) (alg : Alg.t)
| ExportKey (format : string) (key : CryptoKey)
| ImportKey (format : string) (raw : bytes) (alg : Alg.t)
            (extractable : bool) (usages : list string)
| Encrypt (params : EncryptParams) (key : CryptoKey) (data : bytes)
| Sign (alg : Alg.t) (key : CryptoKey) (data : bytes).

(** The content cipher and the MAC. *)
Definition is_cipher_or_mac (c : Call) : bool :=
  match c with
  | Encrypt _ _ _ | Sign _ _ _ => true
  | _ => false
  end.

(** Any primitive of [crypto.subtle]. *)
Definition is_subtle (c : Call) : bool :=
  match c with
  | GetRandomValues _ => false
  | _ => true
  end.

(** The receiver: its two configuration members, and the methods
    [createIV] and [createCEK] when an instance replaces those of the
    prototype (they "mainly exist so that [they] can be mocked"). *)
Record This : Type := {
  key_encryption : KeyEncryption.t;
  content_encryption : ContentEncryption.t;
  own_createIV : option (Eff Call bytes);
  own_createCEK : option (list string -> Eff Call (Promise CryptoKey))
}.

(** [JoseJWE.prototype.createIV] *)
Definition prototype_createIV (this : This) : Eff Call bytes :=
  let iv := new_Uint8Array (ContentEncryption.iv_length (content_encryption this)) in
  call (GetRandomValues iv) (crypto_getRandomValues iv).

(** [JoseJWE.prototype.createCEK] *)
Definition prototype_createCEK (this : This) (purpose : list string)
  : Eff Call (Promise CryptoKey) :=
  let alg := ContentEncryption.id (content_encryption this) in
  call (GenerateKey alg true purpose) (subtle_generateKey alg true purpose).

(** [this.createIV()] *)
Definition createIV (this : This) : Eff Call bytes :=
  match own_createIV this with
  | Some m => m
  | None => prototype_createIV this
  end.

(** [this.createCEK(purpose)] *)
Definition createCEK (this : This) (purpose : list string)
  : Eff Call (Promise CryptoKey) :=
  match own_createCEK this with
  | Some m => m purpose
  | None => prototype_createCEK this purpose
  end.

(** [JoseJWE.prototype.encryptCek] *)
Definition encryptCek (this : This) (key_promise cek_promise : Promise CryptoKey)
  : Eff Call (Promise bytes) :=
  let config := key_encryption this in
  then_ (Promise_all key_promise cek_promise) (fun all =>
    let key := fst all in
    let cek := snd all in
    call (WrapKey "raw" cek key (KeyEncryption.id config))
         (subtle_wrapKey "raw" cek key (KeyEncryption.id config))).

(** Lines 295-299: the length of the AAD in bits, laid out in the eight
    bytes [al_bigendian]. *)
Definition al_bigendian (aad : bytes) : bytes :=
  let al := map u8 (arrayFromInt32 (byteLength aad * 8)) in
  fold_left (fun acc i => set_u8 acc (7 - i) (get_u8 al i))
            [0; 1; 2; 3] (new_Uint8Array 8).

(** The buffer handed to [crypto.subtle.sign] (line 300). *)
Definition mac_input (aad iv cipher_text : bytes) : bytes :=
  arrayBufferConcat [aad; iv; cipher_text; al_bigendian aad].

(** The header of [encryptPlaintext] (lines 218-221). *)
Definition protected_header (this : This) : string :=
  Base64Url_encode (JSON_stringify
    [("alg", KeyEncryption.jwe_name (key_encryption this));
     ("enc", ContentEncryption.jwe_name (content_encryption this))]).

(** The parameter object of the AEAD call (lines 240-245). *)
Definition aead_params (this : This) (iv aad : bytes) : EncryptParams :=
  let config := content_encryption this in
  {| enc_name := Alg.name (ContentEncryption.id config);
     enc_iv := iv;
     additionalData := Some aad;
     tagLength := Some (Auth.tag_length (ContentEncryption.auth config)) |}.

(** The parameter object of the cipher call of the composite path (lines
    284-287). *)
Definition cipher_params (this : This) (iv : bytes) : EncryptParams :=
  let config := content_encryption this in
  {| enc_name := Alg.name (ContentEncryption.id config);
     enc_iv := iv;
     additionalData := None;
     tagLength := None |}.

(** [JoseJWE.prototype.encryptPlaintext] *)
Definition encryptPlaintext (this : This) (cek_promise : Promise CryptoKey)
           (plain_text : string) : Eff Call (Promise Data) :=
  (* Create header *)
  let jwe_protected_header := protected_header this in
  (* Create the IV *)
  iv <- createIV this ;;
  if negb (byteLength iv =?
           Z.of_nat (ContentEncryption.iv_length (content_encryption this)))
  then ret (Rejected "encryptPlaintext: invalid IV length")
  else
  (* Create the AAD *)
  let aad := arrayFromString jwe_protected_header in
  let plain_text := arrayFromString plain_text in
  let config := content_encryption this in
  let auth := ContentEncryption.auth config in
  if Auth.aead auth then
    let tag_length := Auth.tag_length auth in
    if not_multiple_of tag_length 8
    then ret (Rejected "encryptPlaintext: invalid tag_length")
    else
    let enc := aead_params this iv aad in
    then_ cek_promise (fun cek =>
      encrypted <- call (Encrypt enc cek plain_text) (subtle_encrypt enc cek plain_text) ;;
      then_ encrypted (fun cipher_text =>
        let offset := byteLength cipher_text - div_to_integer tag_length 8 in
        ret (Resolved {| header := jwe_protected_header;
                         iv := iv;
                         cipher := slice cipher_text 0 offset;
                         tag := slice_from cipher_text offset |})))
  else
    if not_multiple_of (Auth.truncated_length auth) 8
    then ret (Rejected "encryptPlaintext: invalid truncated HMAC length")
    else
    (* We need to split the CEK key into a MAC and ENC keys *)
    cek_bytes_promise <- then_ cek_promise (fun cek =>
      call (ExportKey "raw" cek) (subtle_exportKey "raw" cek)) ;;
    mac_key_promise <- then_ cek_bytes_promise (fun cek_bytes =>
      if negb (byteLength cek_bytes * 8 =?
               Alg.length (ContentEncryption.id config) + Auth.key_size auth)
      then ret (Rejected "encryptPlaintext: incorrect cek length")
      else
      let bytes := slice cek_bytes 0 (div_to_integer (Auth.key_size auth) 8) in
      call (ImportKey "raw" bytes (Auth.id auth) false ["sign"])
           (subtle_importKey "raw" bytes (Auth.id auth) false ["sign"])) ;;
    enc_key_promise <- then_ cek_bytes_promise (fun cek_bytes =>
      if negb (byteLength cek_bytes * 8 =?
               Alg.length (ContentEncryption.id config) + Auth.key_size auth)
      then ret (Rejected "encryptPlaintext: incorrect cek length")
      else
      let bytes := slice_from cek_bytes (div_to_integer (Auth.key_size auth) 8) in
      call (ImportKey "raw" bytes (ContentEncryption.id config) false ["encrypt"])
           (subtle_importKey "raw" bytes (ContentEncryption.id config) false ["encrypt"])) ;;
    (* Encrypt the plaintext *)
    cipher_text_promise <- then_ enc_key_promise (fun enc_key =>
      let enc := cipher_params this iv in
      call (Encrypt enc enc_key plain_text) (subtle_encrypt enc enc_key plain_text)) ;;
    (* MAC the aad, iv and ciphertext *)
    mac_promise <- then_ (Promise_all mac_key_promise cipher_text_promise) (fun all =>
      let mac_key := fst all in
      let cipher_text := snd all in
      let buf := mac_input aad iv cipher_text in
      call (Sign (Auth.id auth) mac_key buf) (subtle_sign (Auth.id auth) mac_key buf)) ;;
    then_ (Promise_all cipher_text_promise mac_promise) (fun all =>
      let cipher_text := fst all in
      let mac := snd all in
      ret (Resolved {| header := jwe_protected_header;
                       iv := iv;
                       cipher := cipher_text;
                       tag := slice mac 0
                                (div_to_integer (Auth.truncated_length auth) 8) |})).

(** The string assembled at lines 185-189. *)
Definition serialize (encrypted_cek : bytes) (data : Data) : string :=
  (header data ++ "." ++
   Base64Url_encodeArrayBuffer encrypted_cek ++ "." ++
   Base64Url_encodeArrayBuffer (iv data) ++ "." ++
   Base64Url_encodeArrayBuffer (cipher data) ++ "." ++
   Base64Url_encodeArrayBuffer (tag data))%string.

(** [JoseJWE.prototype.encrypt] *)
Definition encrypt (this : This) (key_promise : Promise CryptoKey)
           (plain_text : string) : Eff Call (Promise string) :=
  (* Create a CEK key *)
  cek_promise <- createCEK this ["encrypt"] ;;
  (* Key & Cek allows us to create the encrypted_cek *)
  encrypted_cek <- encryptCek this key_promise cek_promise ;;
  (* Cek allows us to encrypy the plaintext *)
  enc_promise <- encryptPlaintext this cek_promise plain_text ;;
  (* Once we have all the promises, we can base64 encode all the pieces. *)
  then_ (Promise_all encrypted_cek enc_promise) (fun all =>
    let encrypted_cek := fst all in
    let data := snd all in
    ret (Resolved (serialize encrypted_cek data))).

End Routine.

Arguments Call CryptoKey : clear implicits.
Arguments This CryptoKey : clear implicits.
End JoseJWE.

(** ** The class [Encrypter] *)

Module Encrypter.

(** What [this.cryptographer.encrypt] resolves to; [encrypt] then adds
    [header] and [iv] to that object. *)
Record CipherData : Type := { r_cipher : bytes; r_tag : bytes }.

Record Data : Type := {
  header : string;
  iv : bytes;
  cipher : bytes;
  tag : bytes
}.

(** The cryptographer object ("an instance of WebCryptographer (or
    equivalent)"), whose class is not part of this source file. *)
Class Cryptographer (CryptoKey : Type) : Type := {
  getKeyEncryptionAlgorithm : string;
  getContentEncryptionAlgorithm : string;
  cryptographer_createIV : bytes;
  cryptographer_encrypt :
    bytes -> bytes -> Promise CryptoKey -> bytes -> Promise CipherData;
  cryptographer_createCek : Promise CryptoKey;
  cryptographer_wrapCek : CryptoKey -> CryptoKey -> Promise bytes
}.

Section Class_.
Context {CryptoKey : Type} {U : JoseUtils} {H : Host}
        {C : Cryptographer CryptoKey}.

(** The calls of methods of the cryptographer that do work, and the
    lines written to the console. *)
Inductive Call : Type :=
| CreateIV
| EncryptContent (iv aad : bytes) (cekPromise : Promise CryptoKey)
                 (uint8Array : bytes)
| CreateCek
| WrapCek (cek key : CryptoKey)
| ConsoleDebug (text : string)
| ConsoleDebugValue (text : string) (value : Promise CryptoKey).



(** The receiver, after [constructor (cryptographer, keyPromise)] and any
    number of [addHeader] calls; the cryptographer is the instance [C]. *)
Record This : Type := {
  keyPromise : Promise CryptoKey;
  userHeaders : JsObject
}.

(** [constructor (cryptographer, keyPromise)] *)
Definition constructor (keyPromise : Promise CryptoKey) : This :=
  {| keyPromise := keyPromise; userHeaders := [] |}.

(** [addHeader (k, v)], for a name [k] other than [__proto__]: under that
    name the assignment of line 45 reaches the setter of [Object.prototype],
    which ignores a string, and no property is stored. *)
Definition addHeader (this : This) (k v : string) : This :=
  {| keyPromise := keyPromise this;
     userHeaders := obj_set (userHeaders this) k v |}.

(** Lines 65-70: the header object of one call. *)
Definition headers_of (this : This) : JsObject :=
  let headers :=
    fold_left (fun headers i =>
                 match obj_get (userHeaders this) i with
                 | Some v => obj_set headers i v
                 | None => headers
                 end)
              (map fst (userHeaders this)) [] in
  let headers := obj_set headers "alg" getKeyEncryptionAlgorithm in
  obj_set headers "enc" getContentEncryptionAlgorithm.

(** The local function [encryptPlainText] of [encrypt] (lines 63-85). *)
Definition encryptPlainText_local (this : This)
           (cekPromise : Promise CryptoKey) (uint8Array : bytes)
  : Eff Call (Promise Data) :=
  (* Create header *)
  let jweProtectedHeader := Base64Url_encode (JSON_stringify (headers_of this)) in
  (* Create the IV *)
  iv <- call CreateIV cryptographer_createIV ;;
  (* Create the AAD *)
  let aad := arrayFromString jweProtectedHeader in
  encryptPomise <- call (EncryptContent iv aad cekPromise uint8Array)
                        (cryptographer_encrypt iv aad cekPromise uint8Array) ;;
  then_ encryptPomise (fun r =>
    ret (Resolved {| header := jweProtectedHeader;
                     iv := iv;
                     cipher := r_cipher r;
                     tag := r_tag r |})).

(** The string assembled at lines 122-126. *)
Definition serialize (encryptedCek : bytes) (data : Data) : string :=
  (header data ++ "." ++
   Base64Url_encodeArray encryptedCek ++ "." ++
   Base64Url_encodeArray (iv data) ++ "." ++
   Base64Url_encodeArray (cipher data) ++ "." ++
   Base64Url_encodeArray (tag data))%string.

(** [encrypt (uint8Array, presetCEK)]; [presetCEK] is [None] when the
    argument is [undefined]. *)
Definition encrypt (this : This) (uint8Array : bytes)
           (presetCEK : option (Promise CryptoKey))
  : Eff Call (Promise string) :=
  ce <- (if String.eqb getKeyEncryptionAlgorithm "dir" then
           (* with direct encryption, this.keyPromise provides the cek
              and encryptedCek is empty: Promise.resolve(this.keyPromise)
              is this.keyPromise, and [] counts as resolved in Promise.all *)
           ret (keyPromise this, Resolved [])
         else
           cekPromise <-
             match presetCEK with
             | None =>
                 (* Create a CEK key *)
                 _ <- call (ConsoleDebug "generating CEK") tt ;;
                 cekPromise <- call CreateCek cryptographer_createCek ;;
                 _ <- call (ConsoleDebugValue "cekPromise:" cekPromise) tt ;;
                 ret cekPromise
             | Some presetCEK =>
                 _ <- call (ConsoleDebug "using presetCEK") tt ;;
                 let cekPromise := presetCEK in
                 _ <- call (ConsoleDebugValue "cekPromise:" cekPromise) tt ;;
                 ret cekPromise
             end ;;
           (* Key & Cek allows us to create the encryptedCek *)
           encryptedCek <-
             then_ (Promise_all (keyPromise this) cekPromise) (fun all =>
               let key := fst all in
               let cek := snd all in
               call (WrapCek cek key) (cryptographer_wrapCek cek key)) ;;
           ret (cekPromise, encryptedCek)) ;;
  let cekPromise := fst ce in
  let encryptedCek := snd ce in
  (* Cek allows us to encrypy the plain text *)
  encPromise <- encryptPlainText_local this cekPromise uint8Array ;;
  (* Once we have all the promises, we can base64 encode all the pieces. *)
  then_ (Promise_all encryptedCek encPromise) (fun all =>
    let encryptedCek := fst all in
    let data := snd all in
    ret (Resolved (serialize encryptedCek data))).

(** [encryptPlainText (plainText, presetCEK)] *)
Definition encryptPlainText (this : This) (plainText : string)
           (presetCEK : option (Promise CryptoKey))
  : Eff Call (Promise string) :=
  let uint8Array := arrayFromUtf8String plainText in
  encrypt this uint8Array presetCEK.

End Class_.

Arguments Call CryptoKey : clear implicits.
Arguments This CryptoKey : clear implicits.
End Encrypter.

(** ** Reference encodings used in the statements *)

(** [n] written in [width] bytes, most significant byte first. *)
Fixpoint big_endian (width : nat) (n : Z) : bytes :=
  match width with
  | O => []
  | S w => (n / 256 ^ Z.of_nat w) mod 256 :: big_endian w n
  end.

(** [n] written in [width] bytes, least significant byte first. *)
Fixpoint little_endian (width : nat) (n : Z) : bytes :=
  match width with
  | O => []
  | S w => n mod 256 :: little_endian w (n / 256)
  end.

(** The AL field as the specification words it: the bit length of the AAD
    as 8 big-endian bytes. *)
Definition AL_of_spec (aad : bytes) : bytes := big_endian 8 (8 * byteLength aad).

(** Number of periods in a string. *)
Fixpoint periods (s : string) : nat :=
  match s with
  | EmptyString => O
  | String c t => if Ascii.eqb c "." then S (periods t) else periods t
  end.

(** ** A concrete platform, to run the routines on

    [Demo] supplies one implementation of every collaborator: base64url
    without padding, character codes for [arrayFromString], the buffer of a
    one-element [Int32Array] on a little-endian and on a big-endian host for
    [arrayFromInt32], and toy primitives whose keys are their raw bytes. *)

Module Demo.

Definition char_codes (s : string) : bytes :=
  map (fun c => Z.of_N (N_of_ascii c)) (list_ascii_of_string s).

Definition alphabet : string :=
  "ABCDEFGHIJKLMNOPQRSTUVWXYZabcdefghijklmnopqrstuvwxyz0123456789-_".

Definition digit (i : Z) : ascii :=
  match String.get (Z.to_nat i) alphabet with
  | Some c => c
  | None => "A"%char
  end.

Fixpoint base64url (b : bytes) : string :=
  match b with
  | [] => EmptyString
  | [x] =>
      String (digit (x / 4)) (String (digit (x mod 4 * 16)) EmptyString)
  | [x; y] =>
      String (digit (x / 4))
        (String (digit (x mod 4 * 16 + y / 16))
           (String (digit (y mod 16 * 4)) EmptyString))
  | x :: y :: z :: t =>
      String (digit (x / 4))
        (String (digit (x mod 4 * 16 + y / 16))
           (String (digit (y mod 16 * 4 + z / 64))
              (String (digit (z mod 64)) (base64url t))))
  end.

Definition dquote : ascii := ascii_of_nat 34.

Definition quote (s : string) : string :=
  (String dquote s ++ String dquote EmptyString)%string.

Fixpoint members (o : JsObject) : list string :=
  match o with
  | [] => []
  | (k, v) :: t => (quote k ++ ":" ++ quote v)%string :: members t
  end.

(** [JSON.stringify] for names and values that need no escape. *)
Definition stringify (o : JsObject) : string :=
  ("{" ++ String.concat "," (members o) ++ "}")%string.

Definition utils (int32 : Z -> bytes) : JoseUtils := {|
  Base64Url_encode := fun s => base64url (char_codes s);
  Base64Url_encodeArrayBuffer := base64url;
  Base64Url_encodeArray := base64url;
  arrayFromString := char_codes;
  arrayFromUtf8String := char_codes;
  arrayFromInt32 := int32
|}.

(** The buffer of [new Int32Array([n])] where the host is little-endian. *)
Definition utils_le : JoseUtils := utils (little_endian 4).

(** The same where the host is big-endian. *)
Definition utils_be : JoseUtils := utils (big_endian 4).

Definition host : Host := {| JSON_stringify := stringify |}.

Definition xor_with (key data : bytes) : bytes :=
  map (fun x => Z.lxor x (hd 0 key)) data.

Definition checksum (data : bytes) : Z := fold_left (fun a x => (a + x) mod 256) data 0.

(** Toy primitives: a key is its raw bytes, the cipher xors every byte
    with the first key byte and, when a tag length is requested, appends
    that many bytes of checksum; the MAC is 32 bytes long. *)
Definition webcrypto : WebCrypto bytes := {|
  crypto_getRandomValues := fun a => map (fun _ => 42) a;
  subtle_generateKey := fun alg _ _ =>
    Resolved (repeat 7 (Z.to_nat (Alg.length alg / 8)));
  subtle_wrapKey := fun _ cek key _ => Resolved (xor_with key cek);
  subtle_exportKey := fun _ key => Resolved key;
  subtle_importKey := fun _ raw _ _ _ => Resolved raw;
  subtle_encrypt := fun p key data =>
    Resolved (xor_with key data ++
              match tagLength p with
              | Some t => repeat (checksum (data ++ enc_iv p)) (Z.to_nat (t / 8))
              | None => []
              end);
  subtle_sign := fun _ key data =>
    Resolved (map (fun i => (checksum (key ++ data) + i) mod 256)
                  (map Z.of_nat (seq 0 32)))
|}.

(** The configuration of [A128GCM] with a tag of [tag_length] bits. *)
Definition gcm (tag_length : Z) : JoseJWE.ContentEncryption.t := {|
  JoseJWE.ContentEncryption.jwe_name := "A128GCM";
  JoseJWE.ContentEncryption.id :=
    {| Alg.name := "AES-GCM"; Alg.length := 128; Alg.hash := EmptyString |};
  JoseJWE.ContentEncryption.iv_length := 12;
  JoseJWE.ContentEncryption.auth :=
    {| JoseJWE.Auth.aead := true;
       JoseJWE.Auth.tag_length := tag_length;
       JoseJWE.Auth.key_size := 0;
       JoseJWE.Auth.truncated_length := 0;
       JoseJWE.Auth.id :=
         {| Alg.name := EmptyString; Alg.length := 0; Alg.hash := EmptyString |} |}
|}.

(** The configuration of [A128CBC-HS256] with a MAC truncated to
    [truncated_length] bits. *)
Definition cbc_hs (truncated_length : Z) : JoseJWE.ContentEncryption.t := {|
  JoseJWE.ContentEncryption.jwe_name := "A128CBC-HS256";
  JoseJWE.ContentEncryption.id :=
    {| Alg.name := "AES-CBC"; Alg.length := 128; Alg.hash := EmptyString |};
  JoseJWE.ContentEncryption.iv_length := 16;
  JoseJWE.ContentEncryption.auth :=
    {| JoseJWE.Auth.aead := false;
       JoseJWE.Auth.tag_length := 0;
       JoseJWE.Auth.key_size := 128;
       JoseJWE.Auth.truncated_length := truncated_length;
       JoseJWE.Auth.id :=
         {| Alg.name := "HMAC"; Alg.length := 0; Alg.hash := "SHA-256" |} |}
|}.

Definition A128GCM : JoseJWE.ContentEncryption.t := gcm 128.

Definition A128CBC_HS256 : JoseJWE.ContentEncryption.t := cbc_hs 128.

Definition RSA_OAEP : JoseJWE.KeyEncryption.t := {|
  JoseJWE.KeyEncryption.jwe_name := "RSA-OAEP";
  JoseJWE.KeyEncryption.id :=
    {| Alg.name := "RSA-OAEP"; Alg.length := 0; Alg.hash := "SHA-1" |}
|}.

Definition jwe (ce : JoseJWE.ContentEncryption.t) : JoseJWE.This bytes := {|
  JoseJWE.key_encryption := RSA_OAEP;
  JoseJWE.content_encryption := ce;
  JoseJWE.own_createIV := None;
  JoseJWE.own_createCEK := None
|}.

(** An instance whose [createIV] is replaced by one that returns [iv]. *)
Definition jwe_with_iv (ce : JoseJWE.ContentEncryption.t) (iv : bytes)
  : JoseJWE.This bytes := {|
  JoseJWE.key_encryption := RSA_OAEP;
  JoseJWE.content_encryption := ce;
  JoseJWE.own_createIV := Some (ret iv);
  JoseJWE.own_createCEK := None
|}.


Definition key16 : bytes := map Z.of_nat (seq 1 16).
Definition key32 : bytes := map Z.of_nat (seq 1 32).

(** A cryptographer for [Encrypter] over the same toy primitives. *)
Definition cryptographer (alg : string) : Encrypter.Cryptographer bytes := {|
  Encrypter.getKeyEncryptionAlgorithm := alg;
  Encrypter.getContentEncryptionAlgorithm := "A128GCM";
  Encrypter.cryptographer_createIV := repeat 42 12;
  Encrypter.cryptographer_encrypt := fun iv aad cekPromise data =>
    match cekPromise with
    | Resolved cek =>
        Resolved {| Encrypter.r_cipher := xor_with cek data;
                    Encrypter.r_tag := repeat (checksum (data ++ iv ++ aad)) 16 |}
    | Rejected r => Rejected r
    | Pending => Pending
    end;
  Encrypter.cryptographer_createCek := Resolved (repeat 7 16);
  Encrypter.cryptographer_wrapCek := fun cek key => Resolved (xor_with key cek)
|}.

(** [encryptPlaintext] on the plain text ["hello"], from an empty log. *)
Definition run (this : JoseJWE.This bytes) (cek : bytes)
  : Promise JoseJWE.Data * list (JoseJWE.Call bytes) :=
  @JoseJWE.encryptPlaintext bytes utils_le host webcrypto this (Resolved cek)
    "hello" [].

(** An [Encrypter] with two caller headers, one of them named ["alg"]. *)
Definition encrypter : Encrypter.This bytes :=
  {| Encrypter.keyPromise := Resolved key16;
     Encrypter.userHeaders := [("kid", "1"); ("alg", "none")] |}.

(** [Encrypter.encrypt] on three bytes, from an empty log. *)
Definition run_encrypter (alg : string) (presetCEK : option (Promise bytes))
  : Promise string * list (Encrypter.Call bytes) :=
  @Encrypter.encrypt bytes utils_le host (cryptographer alg) encrypter
    [1; 2; 3] presetCEK [].

(** The header of [jwe A128GCM], as JSON text and encoded. *)
Definition json : string := stringify [("alg", "RSA-OAEP"); ("enc", "A128GCM")].

Definition segment : string := "eyJhbGciOiJSU0EtT0FFUCIsImVuYyI6IkExMjhHQ00ifQ".

(** The header object [encrypter] builds under direct key management. *)
Definition headers : JsObject :=
  @Encrypter.headers_of bytes (cryptographer "dir") encrypter.

End Demo.

(** ** Sequences of [addHeader] *)

(** [this.addHeader(k1, v1); ...; this.addHeader(kn, vn)] *)
Definition add_headers {CryptoKey : Type} (this : Encrypter.This CryptoKey)
           (kvs : list (string * string)) : Encrypter.This CryptoKey :=
  fold_left (fun t kv => Encrypter.addHeader t (fst kv) (snd kv)) kvs this.

(** ** Failing primitives, to run the error paths on *)

Module Faulty.

Inductive Fault : Type :=
| Export | ImportMac | ImportEnc | Cipher | Mac | Wrap.

Definition fails (f g : Fault) : bool :=
  match f, g with
  | Export, Export | ImportMac, ImportMac | ImportEnc, ImportEnc
  | Cipher, Cipher | Mac, Mac | Wrap, Wrap => true
  | _, _ => false
  end.

Definition answer {A : Type} (f g : Fault) (a : Promise A) : Promise A :=
  if fails f g then Rejected "OperationError" else a.

(** The primitives of [Demo.webcrypto], the one named [f] rejecting. *)
Definition webcrypto (f : Fault) : WebCrypto bytes := {|
  crypto_getRandomValues := @crypto_getRandomValues _ Demo.webcrypto;
  subtle_generateKey := @subtle_generateKey _ Demo.webcrypto;
  subtle_wrapKey := fun fmt cek key alg =>
    answer f Wrap (@subtle_wrapKey _ Demo.webcrypto fmt cek key alg);
  subtle_exportKey := fun fmt key =>
    answer f Export (@subtle_exportKey _ Demo.webcrypto fmt key);
  subtle_importKey := fun fmt raw alg ext usages =>
    answer f (if String.eqb (hd EmptyString usages) "sign" then ImportMac else ImportEnc)
      (@subtle_importKey _ Demo.webcrypto fmt raw alg ext usages);
  subtle_encrypt := fun p key data =>
    answer f Cipher (@subtle_encrypt _ Demo.webcrypto p key data);
  subtle_sign := fun alg key data =>
    answer f Mac (@subtle_sign _ Demo.webcrypto alg key data)
|}.

(** [encryptPlaintext] on ["hello"] under [A128CBC-HS256] with a CEK of 32
    bytes, the primitive [f] failing. *)
Definition run (f : Fault) : Promise JoseJWE.Data * list (JoseJWE.Call bytes) :=
  @JoseJWE.encryptPlaintext bytes Demo.utils_le Demo.host (webcrypto f)
    (Demo.jwe Demo.A128CBC_HS256) (Resolved Demo.key32) "hello" [].

(** The primitives of [Demo.webcrypto] with a cipher that answers with ten
    bytes whatever it is asked. *)
Definition short_output : WebCrypto bytes := {|
  crypto_getRandomValues := @crypto_getRandomValues _ Demo.webcrypto;
  subtle_generateKey := @subtle_generateKey _ Demo.webcrypto;
  subtle_wrapKey := @subtle_wrapKey _ Demo.webcrypto;
  subtle_exportKey := @subtle_exportKey _ Demo.webcrypto;
  subtle_importKey := @subtle_importKey _ Demo.webcrypto;
  subtle_encrypt := fun _ _ _ => Resolved (map Z.of_nat (seq 1 10));
  subtle_sign := @subtle_sign _ Demo.webcrypto
|}.

(** An [Encrypter] whose recipient key promise is rejected. *)
Definition keyless : Encrypter.This bytes :=
  {| Encrypter.keyPromise := Rejected "no key";
     Encrypter.userHeaders := [] |}.

End Faulty.

(** ** A platform whose [arrayFromInt32] answers most significant byte first *)

Module MsbFirst.

(** A checksum that depends on the order of the bytes. *)
Definition weighted (data : bytes) : Z :=
  fold_left (fun a x => (3 * a + x) mod 256) data 0.

(** A MAC of 32 bytes over [weighted]. *)
Definition mac (key data : bytes) : bytes :=
  map (fun i => (weighted (key ++ data) + i) mod 256) (map Z.of_nat (seq 0 32)).

(** The primitives of [Demo.webcrypto] with [mac] as MAC. *)
Definition webcrypto : WebCrypto bytes := {|
  crypto_getRandomValues := @crypto_getRandomValues _ Demo.webcrypto;
  subtle_generateKey := @subtle_generateKey _ Demo.webcrypto;
  subtle_wrapKey := @subtle_wrapKey _ Demo.webcrypto;
  subtle_exportKey := @subtle_exportKey _ Demo.webcrypto;
  subtle_importKey := @subtle_importKey _ Demo.webcrypto;
  subtle_encrypt := @subtle_encrypt _ Demo.webcrypto;
  subtle_sign := fun _ key data => Resolved (mac key data)
|}.

(** The AAD of [A128CBC-HS256] under [RSA-OAEP]. *)
Definition aad : bytes :=
  Demo.char_codes
    (@JoseJWE.protected_header bytes Demo.utils_be Demo.host
       (Demo.jwe Demo.A128CBC_HS256)).

(** [encryptPlaintext] on ["hello"] under [A128CBC-HS256] with a CEK of 32
    bytes, [arrayFromInt32] answering most significant byte first. *)
Definition run : Promise JoseJWE.Data * list (JoseJWE.Call bytes) :=
  @JoseJWE.encryptPlaintext bytes Demo.utils_be Demo.host webcrypto
    (Demo.jwe Demo.A128CBC_HS256) (Resolved Demo.key32) "hello" [].

End MsbFirst.

(** * Properties *)

(** ** Byte arrays and slices *)

Lemma byteLength_nonneg (b : bytes) : 0 <= byteLength b.
Proof. unfold byteLength. apply Nat2Z.is_nonneg. Qed.

Lemma byteLength_app (a b : bytes) : byteLength (a ++ b) = byteLength a + byteLength b.
Proof. unfold byteLength. rewrite length_app. apply Nat2Z.inj_add. Qed.

(** [b.slice(0, k)] is the prefix of [k] bytes, the whole of [b] when it is
    shorter. *)
Lemma slice_prefix (b : bytes) (k : Z) :
  0 <= k -> slice b 0 k = firstn (Z.to_nat k) b.
Proof.
  intros Hk. unfold slice, relative_index.
  pose proof (byteLength_nonneg b) as Hlen.
  destruct (0 <? 0) eqn:E0; [apply Z.ltb_lt in E0; lia|].
  destruct (k <? 0) eqn:Ek; [apply Z.ltb_lt in Ek; lia|].
  rewrite (Z.min_l _ _ Hlen). simpl skipn.
  rewrite Z.sub_0_r, Z.max_l by lia.
  destruct (Z.le_ge_cases k (byteLength b)) as [Hle|Hge].
  - rewrite Z.min_l by assumption. reflexivity.
  - rewrite Z.min_r by assumption. unfold byteLength in *.
    rewrite Nat2Z.id. rewrite !firstn_all2; trivial; lia.
Qed.

(** [b.slice(k)] is what follows the first [k] bytes. *)
Lemma slice_from_suffix (b : bytes) (k : Z) :
  0 <= k -> slice_from b k = skipn (Z.to_nat k) b.
Proof.
  intros Hk. unfold slice_from, slice, relative_index.
  pose proof (byteLength_nonneg b) as Hlen.
  destruct (k <? 0) eqn:Ek; [apply Z.ltb_lt in Ek; lia|].
  destruct (byteLength b <? 0) eqn:El; [apply Z.ltb_lt in El; lia|].
  rewrite Z.min_id.
  destruct (Z.le_ge_cases k (byteLength b)) as [Hle|Hge].
  - rewrite Z.min_l by assumption. rewrite Z.max_l by lia.
    apply firstn_all2. rewrite length_skipn. unfold byteLength in *. lia.
  - rewrite Z.min_r by assumption. unfold byteLength in *.
    rewrite Nat2Z.id, skipn_all. rewrite skipn_all2 by lia. apply firstn_nil.
Qed.

Lemma slice_split (b : bytes) (k : Z) :
  0 <= k -> slice b 0 k ++ slice_from b k = b.
Proof.
  intros Hk. rewrite slice_prefix, slice_from_suffix by assumption.
  apply firstn_skipn.
Qed.

Lemma byteLength_slice_prefix (b : bytes) (k : Z) :
  0 <= k <= byteLength b -> byteLength (slice b 0 k) = k.
Proof.
  intros [Hk Hle]. rewrite slice_prefix by assumption.
  unfold byteLength in *. rewrite length_firstn. lia.
Qed.

Lemma byteLength_slice_suffix (b : bytes) (k : Z) :
  0 <= k <= byteLength b -> byteLength (slice_from b k) = byteLength b - k.
Proof.
  intros [Hk Hle]. rewrite slice_from_suffix by assumption.
  unfold byteLength in *. rewrite length_skipn. lia.
Qed.

(** For integers, the source's test [a % 8 != 0] is "not a multiple of 8". *)
Lemma not_multiple_of_spec (a : Z) :
  not_multiple_of a 8 = true <-> a mod 8 <> 0.
Proof.
  unfold not_multiple_of. rewrite negb_true_iff, Z.eqb_neq.
  rewrite Z.rem_divide, Z.mod_divide by discriminate. reflexivity.
Qed.

Lemma multiple_of_spec (a : Z) :
  not_multiple_of a 8 = false <-> a mod 8 = 0.
Proof.
  unfold not_multiple_of. rewrite negb_false_iff, Z.eqb_eq.
  rewrite Z.rem_divide, Z.mod_divide by discriminate. reflexivity.
Qed.

Lemma div_to_integer_nonneg (a : Z) : 0 <= a -> div_to_integer a 8 = a / 8.
Proof. intros Ha. unfold div_to_integer. apply Z.quot_div_nonneg; lia. Qed.

(** ** The AL field *)

Section AL.
Context {U : JoseUtils}.

(** The layout of [al_bigendian], whatever [arrayFromInt32] returns: four
    zero bytes, then the first four bytes of the helper's result in
    reverse order. *)
Lemma al_bigendian_layout (aad : bytes) :
  let al := map u8 (arrayFromInt32 (byteLength aad * 8)) in
  JoseJWE.al_bigendian aad =
    [0; 0; 0; 0; u8 (get_u8 al 3); u8 (get_u8 al 2); u8 (get_u8 al 1); u8 (get_u8 al 0)].
Proof. reflexivity. Qed.

Lemma al_bigendian_length (aad : bytes) :
  List.length (JoseJWE.al_bigendian aad) = 8%nat.
Proof. reflexivity. Qed.


Lemma reversed_little_endian (n : Z) :
  0 <= n < 2 ^ 32 ->
  let al := map u8 (little_endian 4 n) in
  [0; 0; 0; 0; u8 (get_u8 al 3); u8 (get_u8 al 2); u8 (get_u8 al 1); u8 (get_u8 al 0)]
  = big_endian 8 n.
Proof.
  intros Hn.
  assert (H2 : n / 256 / 256 = n / 65536)
    by (rewrite Z.div_div by lia; reflexivity).
  assert (H3 : n / 256 / 256 / 256 = n / 16777216)
    by (rewrite H2, Z.div_div by lia; reflexivity).
  cbv -[Z.div Z.modulo].
  rewrite H3, H2, !Z.mod_mod by lia.
  rewrite Z.div_1_r.
  repeat match goal with
         | |- context [n / ?k] => rewrite (Z.div_small n k) by lia
         end.
  reflexivity.
Qed.


(** The converse: the AL field is the big-endian form of the bit length
    only where the four bytes read from the result of [arrayFromInt32] are
    those of the bit length, least significant byte first. *)
Lemma al_bigendian_only_of_little_endian (aad : bytes) :
  JoseJWE.al_bigendian aad = AL_of_spec aad ->
  let al := map u8 (arrayFromInt32 (byteLength aad * 8)) in
  [u8 (get_u8 al 0); u8 (get_u8 al 1); u8 (get_u8 al 2); u8 (get_u8 al 3)]
  = little_endian 4 (byteLength aad * 8).
Proof.
  intros Heq al. rewrite al_bigendian_layout in Heq. fold al in Heq.
  unfold AL_of_spec in Heq.
  replace (8 * byteLength aad) with (byteLength aad * 8) in Heq by lia.
  set (n := byteLength aad * 8) in *.
  cbn [big_endian] in Heq.
  injection Heq as _ _ _ _ H3 H2 H1 H0.
  rewrite H3, H2, H1, H0. cbn [little_endian].
  change (Z.pow_pos 256 1) with 256.
  change (Z.pow_pos 256 2) with (256 * 256).
  change (Z.pow_pos 256 3) with (256 * 256 * 256).
  rewrite Z.div_1_r, <- !Z.div_div by lia. reflexivity.
Qed.


End AL.



(** Where [arrayFromInt32] hands back the bytes in the order of a big-endian
    host, the reversal of lines 297-299 yields the little-endian form. *)
Lemma al_on_big_endian_host :
  @JoseJWE.al_bigendian Demo.utils_be [104] = [0; 0; 0; 0; 8; 0; 0; 0] /\
  AL_of_spec [104] = [0; 0; 0; 0; 0; 0; 0; 8].
Proof. split; vm_compute; reflexivity. Qed.

(** ** [encryptPlaintext]: validation *)

Section Validation.
Context {CryptoKey : Type} {U : JoseUtils} {H : Host} {W : WebCrypto CryptoKey}.
Import JoseJWE.

Variables (this : This CryptoKey) (cek_promise : Promise CryptoKey)
          (plain_text : string).

Let config := content_encryption this.
Let auth := ContentEncryption.auth config.

(** What the eager tests of lines 225, 236 and 259 refuse, for the IV that
    [this.createIV()] returns from the log [log]. *)
Let invalid (log : list (Call CryptoKey)) : Prop :=
  byteLength (fst (createIV this log)) <> Z.of_nat (ContentEncryption.iv_length config) \/
  (Auth.aead auth = true /\ Auth.tag_length auth mod 8 <> 0) \/
  (Auth.aead auth = false /\ Auth.truncated_length auth mod 8 <> 0).

(** The message of the first test that fails. *)
Let message (log : list (Call CryptoKey)) : string :=
  if negb (byteLength (fst (createIV this log)) =?
           Z.of_nat (ContentEncryption.iv_length config))
  then "encryptPlaintext: invalid IV length"
  else if Auth.aead auth
       then "encryptPlaintext: invalid tag_length"
       else "encryptPlaintext: invalid truncated HMAC length".

Lemma encryptPlaintext_rejects_early (log : list (Call CryptoKey)) :
  invalid log ->
  encryptPlaintext this cek_promise plain_text log =
    (Rejected (message log), snd (createIV this log)).
Proof.
  unfold invalid, message, encryptPlaintext, bind.
  destruct (createIV this log) as [iv0 log1]. cbn [fst snd].
  fold config. fold auth.
  destruct (negb (byteLength iv0 =? _)) eqn:Eiv; [reflexivity|].
  apply negb_false_iff, Z.eqb_eq in Eiv.
  intros [Hiv|[[Haead Htag]|[Haead Htag]]].
  - contradiction.
  - rewrite Haead. apply not_multiple_of_spec in Htag. rewrite Htag. reflexivity.
  - rewrite Haead. apply not_multiple_of_spec in Htag. rewrite Htag. reflexivity.
Qed.

(** C7: cheap parameter validation is eager. When the IV that
    [this.createIV()] returned has not the configured [iv_length], or when
    [tag_length] (AEAD mode) or [truncated_length] (composite mode) is not a
    multiple of 8, [encryptPlaintext] is rejected, with "invalid IV length"
    in the IV case, and the call log is left as [createIV] left it: no
    primitive of [crypto.subtle], cipher and MAC included, has been called;
    the prototype's [createIV] itself calls [crypto.getRandomValues] only. *)
Theorem C7_validation_is_eager (log : list (Call CryptoKey)) :
  let iv_ok := byteLength (fst (createIV this log)) =
               Z.of_nat (ContentEncryption.iv_length config) in
  let after_iv := snd (createIV this log) in
  (~ iv_ok ->
   encryptPlaintext this cek_promise plain_text log =
     (Rejected "encryptPlaintext: invalid IV length", after_iv)) /\
  (Auth.aead auth = true -> Auth.tag_length auth mod 8 <> 0 ->
   (exists reason,
       encryptPlaintext this cek_promise plain_text log = (Rejected reason, after_iv)) /\
   (iv_ok ->
    encryptPlaintext this cek_promise plain_text log =
      (Rejected "encryptPlaintext: invalid tag_length", after_iv))) /\
  (Auth.aead auth = false -> Auth.truncated_length auth mod 8 <> 0 ->
   (exists reason,
       encryptPlaintext this cek_promise plain_text log = (Rejected reason, after_iv)) /\
   (iv_ok ->
    encryptPlaintext this cek_promise plain_text log =
      (Rejected "encryptPlaintext: invalid truncated HMAC length", after_iv))) /\
  (own_createIV this = None ->
   after_iv = log ++ [GetRandomValues
                        (new_Uint8Array (ContentEncryption.iv_length config))] /\
   forallb (fun c => negb (is_subtle c))
     [GetRandomValues (new_Uint8Array (ContentEncryption.iv_length config))
      : Call CryptoKey] = true).
Proof.
  intros iv_ok after_iv. subst iv_ok after_iv.
  split; [|split; [|split]].
  - intros Hiv. rewrite encryptPlaintext_rejects_early by (left; exact Hiv).
    unfold message. apply Z.eqb_neq in Hiv. rewrite Hiv. reflexivity.
  - intros Haead Htag.
    rewrite encryptPlaintext_rejects_early by (right; left; split; assumption).
    split; [eexists; reflexivity|].
    intros Hiv. unfold message. apply Z.eqb_eq in Hiv. rewrite Hiv.
    fold config auth. rewrite Haead. reflexivity.
  - intros Haead Htag.
    rewrite encryptPlaintext_rejects_early by (right; right; split; assumption).
    split; [eexists; reflexivity|].
    intros Hiv. unfold message. apply Z.eqb_eq in Hiv. rewrite Hiv.
    fold config auth. rewrite Haead. reflexivity.
  - intros Hown. unfold createIV. rewrite Hown. split; reflexivity.
Qed.

End Validation.

(** The same for the whole of [JoseJWE.prototype.encrypt]: the promise it
    returns is rejected, and after the calls of [createCEK] and of
    [encryptCek], which precede [encryptPlaintext] in the source, only the
    IV is created. *)
Lemma encrypt_rejects_early {CryptoKey : Type} {U : JoseUtils} {H : Host}
      {W : WebCrypto CryptoKey} (this : JoseJWE.This CryptoKey)
      (key_promise : Promise CryptoKey) (plain_text : string)
      (log : list (JoseJWE.Call CryptoKey)) :
  let config := JoseJWE.content_encryption this in
  let auth := JoseJWE.ContentEncryption.auth config in
  let cek_promise := fst (JoseJWE.createCEK this ["encrypt"] log) in
  let log1 := snd (JoseJWE.createCEK this ["encrypt"] log) in
  let log2 := snd (JoseJWE.encryptCek this key_promise cek_promise log1) in
  byteLength (fst (JoseJWE.createIV this log2)) <>
    Z.of_nat (JoseJWE.ContentEncryption.iv_length config) \/
  (JoseJWE.Auth.aead auth = true /\ JoseJWE.Auth.tag_length auth mod 8 <> 0) \/
  (JoseJWE.Auth.aead auth = false /\
   JoseJWE.Auth.truncated_length auth mod 8 <> 0) ->
  exists reason,
    JoseJWE.encrypt this key_promise plain_text log =
      (Rejected reason, snd (JoseJWE.createIV this log2)).
Proof.
  intros config auth cek_promise log1 log2 Hinvalid.
  subst cek_promise log1 log2. unfold JoseJWE.encrypt, bind.
  destruct (JoseJWE.createCEK this ["encrypt"] log) as [cek_promise log1].
  cbn [fst snd] in *.
  destruct (JoseJWE.encryptCek this key_promise cek_promise log1)
    as [encrypted_cek log2].
  cbn [fst snd] in *.
  rewrite encryptPlaintext_rejects_early by exact Hinvalid.
  destruct encrypted_cek; cbn [Promise_all then_ ret]; eexists; reflexivity.
Qed.



Section AeadPath.
Context {CryptoKey : Type} {U : JoseUtils} {H : Host} {W : WebCrypto CryptoKey}.
Import JoseJWE.

Variables (this : This CryptoKey) (cek : CryptoKey) (plain_text : string) (log : list (Call CryptoKey)).

Let config := content_encryption this.
Let auth := ContentEncryption.auth config.
Let tag_length := Auth.tag_length auth.
Let IV := fst (createIV this log).
Let after_iv := snd (createIV this log).
Let AAD := arrayFromString (protected_header this).
Let plaintext := arrayFromString plain_text.

Hypothesis Hiv : byteLength IV = Z.of_nat (ContentEncryption.iv_length config).
Hypothesis Haead : Auth.aead auth = true.
Hypothesis Htag : tag_length mod 8 = 0.

(** The AEAD path up to the call of the primitive. *)
Lemma aead_run :
  encryptPlaintext this (Resolved cek) plain_text log =
    then_ (subtle_encrypt (aead_params this IV AAD) cek plaintext)
      (fun cipher_text =>
         let offset := byteLength cipher_text - div_to_integer tag_length 8 in
         ret (Resolved {| header := protected_header this;
                          iv := IV;
                          cipher := slice cipher_text 0 offset;
                          tag := slice_from cipher_text offset |}))
      (after_iv ++ [Encrypt (aead_params this IV AAD) cek plaintext]).
Proof.
  subst IV after_iv. unfold encryptPlaintext, bind.
  destruct (createIV this log) as [iv0 log1]. cbn [fst snd] in *.
  fold config auth tag_length.
  apply Z.eqb_eq in Hiv. rewrite Hiv. cbn [negb].
  rewrite Haead. apply multiple_of_spec in Htag. rewrite Htag.
  reflexivity.
Qed.

Variable combined : bytes.
Hypothesis Hencrypt :
  subtle_encrypt (aead_params this IV AAD) cek plaintext = Resolved combined.
Hypothesis Hnonneg : 0 <= tag_length.
Hypothesis Hcontract : byteLength combined = byteLength plaintext + tag_length / 8.

(** C2: in AEAD mode, when the primitive answers with a combined output of
    [len(plaintext) + tag_length/8] bytes, the call resolves to a ciphertext
    that is all but the last [tag_length/8] bytes of that output and a tag
    that is exactly its trailing [tag_length/8] bytes; ciphertext and tag
    together are the combined output, of length
    [len(plaintext) + tag_length/8]. *)
Theorem C2_aead_output_split :
  exists data,
    fst (encryptPlaintext this (Resolved cek) plain_text log) = Resolved data /\
    cipher data ++ tag data = combined /\
    cipher data = firstn (List.length combined - Z.to_nat (tag_length / 8)) combined /\
    tag data = skipn (List.length combined - Z.to_nat (tag_length / 8)) combined /\
    byteLength (tag data) = tag_length / 8 /\
    byteLength (cipher data) = byteLength plaintext /\
    byteLength (cipher data ++ tag data) = byteLength plaintext + tag_length / 8.
Proof.
  rewrite aead_run, Hencrypt. cbn [then_ ret fst cipher tag].
  eexists. split; [reflexivity|]. cbn [cipher tag].
  rewrite div_to_integer_nonneg by assumption.
  pose proof (byteLength_nonneg plaintext) as Hpt.
  assert (Hk : 0 <= tag_length / 8) by (apply Z.div_pos; lia).
  set (offset := byteLength combined - tag_length / 8).
  assert (Hoff : 0 <= offset <= byteLength combined) by (unfold offset; lia).
  assert (Hnat : Z.to_nat offset =
                 (List.length combined - Z.to_nat (tag_length / 8))%nat).
  { unfold offset, byteLength. rewrite Z2Nat.inj_sub, Nat2Z.id by lia. reflexivity. }
  rewrite slice_split by lia.
  rewrite byteLength_slice_prefix, byteLength_slice_suffix by lia.
  rewrite slice_prefix, slice_from_suffix, Hnat by lia.
  repeat split; unfold offset; lia.
Qed.
End AeadPath.

(** Case analysis on the membership in an explicit list of calls. *)
Ltac split_in :=
  repeat match goal with
         | Hin : _ \/ _ |- _ => destruct Hin as [Hin|Hin]
         | Hin : False |- _ => contradiction
         end.

Section CompositePath.
Context {CryptoKey : Type} {U : JoseUtils} {H : Host} {W : WebCrypto CryptoKey}.
Import JoseJWE.

Variables (this : This CryptoKey) (cek : CryptoKey) (plain_text : string)
          (log : list (Call CryptoKey)).

Let config := content_encryption this.
Let auth := ContentEncryption.auth config.
Let IV := fst (createIV this log).
Let after_iv := snd (createIV this log).
Let AAD := arrayFromString (protected_header this).
Let plaintext := arrayFromString plain_text.
Let mac_key_bits := Auth.key_size auth.
Let enc_key_bits := Alg.length (ContentEncryption.id config).
Let truncated_length := Auth.truncated_length auth.

Hypothesis Hiv : byteLength IV = Z.of_nat (ContentEncryption.iv_length config).
Hypothesis Haead : Auth.aead auth = false.
Hypothesis Htrunc : truncated_length mod 8 = 0.

Variable cek_bytes : bytes.
Hypothesis Hexport : subtle_exportKey "raw" cek = Resolved cek_bytes.

Let mac_key_bytes := slice cek_bytes 0 (div_to_integer mac_key_bits 8).
Let enc_key_bytes := slice_from cek_bytes (div_to_integer mac_key_bits 8).
Let import_mac : Call CryptoKey :=
  ImportKey "raw" mac_key_bytes (Auth.id auth) false ["sign"].
Let import_enc : Call CryptoKey :=
  ImportKey "raw" enc_key_bytes (ContentEncryption.id config) false ["encrypt"].

(** The composite path once the CEK is exported: the two length tests and
    the two imports (lines 264-280), then the rest. *)
Lemma composite_run :
  encryptPlaintext this (Resolved cek) plain_text log =
    if negb (byteLength cek_bytes * 8 =? enc_key_bits + mac_key_bits)
    then (Rejected "encryptPlaintext: incorrect cek length",
          after_iv ++ [ExportKey "raw" cek])
    else
      (mac_key_promise <- ret (subtle_importKey "raw" mac_key_bytes (Auth.id auth)
                                 false ["sign"]) ;;
       enc_key_promise <- ret (subtle_importKey "raw" enc_key_bytes
                                 (ContentEncryption.id config) false ["encrypt"]) ;;
       cipher_text_promise <- then_ enc_key_promise (fun enc_key =>
         call (Encrypt (cipher_params this IV) enc_key plaintext)
              (subtle_encrypt (cipher_params this IV) enc_key plaintext)) ;;
       mac_promise <- then_ (Promise_all mac_key_promise cipher_text_promise)
         (fun all =>
            call (Sign (Auth.id auth) (fst all) (mac_input AAD IV (snd all)))
                 (subtle_sign (Auth.id auth) (fst all) (mac_input AAD IV (snd all)))) ;;
       then_ (Promise_all cipher_text_promise mac_promise) (fun all =>
         ret (Resolved {| header := protected_header this;
                          iv := IV;
                          cipher := fst all;
                          tag := slice (snd all) 0
                                   (div_to_integer truncated_length 8) |})))
      (after_iv ++ [ExportKey "raw" cek; import_mac; import_enc]).
Proof.
  subst IV after_iv. unfold encryptPlaintext, bind.
  destruct (createIV this log) as [iv0 log1]. cbn [fst snd] in *.
  fold config auth.
  apply Z.eqb_eq in Hiv. rewrite Hiv. cbn [negb].
  rewrite Haead. apply multiple_of_spec in Htrunc.
  fold truncated_length. rewrite Htrunc.
  cbn [then_]. unfold call at 1. rewrite Hexport. cbn [then_].
  fold enc_key_bits mac_key_bits.
  destruct (negb (byteLength cek_bytes * 8 =? enc_key_bits + mac_key_bits)).
  - reflexivity.
  - unfold call at 1 2, ret at 3 4. rewrite <- !app_assoc. reflexivity.
Qed.

(** C3: in composite mode, when the exported raw CEK has
    [mac_key_bits + enc_key_bits] bits, the bytes imported as the MAC key
    are exactly its first [mac_key_bits/8] bytes and the bytes imported as
    the encryption key exactly the remaining ones, the MAC key first, and
    the keys used by the later cipher and MAC calls are the imported ones;
    when the bit length differs the call is rejected with "incorrect cek
    length" right after the export. *)
Theorem C3_cek_split :
  0 <= mac_key_bits -> 0 <= enc_key_bits ->
  (byteLength cek_bytes * 8 = mac_key_bits + enc_key_bits ->
   mac_key_bytes = firstn (Z.to_nat (mac_key_bits / 8)) cek_bytes /\
   enc_key_bytes = skipn (Z.to_nat (mac_key_bits / 8)) cek_bytes /\
   mac_key_bytes ++ enc_key_bytes = cek_bytes /\
   byteLength mac_key_bytes = mac_key_bits / 8 /\
   exists rest,
     snd (encryptPlaintext this (Resolved cek) plain_text log) =
       after_iv ++ [ExportKey "raw" cek; import_mac; import_enc] ++ rest /\
     (forall alg key buf, In (Sign alg key buf) rest ->
        subtle_importKey "raw" mac_key_bytes (Auth.id auth) false ["sign"]
        = Resolved key) /\
     (forall p key data, In (Encrypt p key data) rest ->
        subtle_importKey "raw" enc_key_bytes (ContentEncryption.id config)
          false ["encrypt"] = Resolved key) /\
     (forall c, In c rest -> is_cipher_or_mac c = true)) /\
  (byteLength cek_bytes * 8 <> mac_key_bits + enc_key_bits ->
   encryptPlaintext this (Resolved cek) plain_text log =
     (Rejected "encryptPlaintext: incorrect cek length",
      after_iv ++ [ExportKey "raw" cek])).
Proof.
  intros Hmac Henc. split.
  - intros Hlen.
    assert (Hq : div_to_integer mac_key_bits 8 = mac_key_bits / 8)
      by (apply div_to_integer_nonneg; assumption).
    assert (Hk : 0 <= mac_key_bits / 8 <= byteLength cek_bytes).
    { split; [apply Z.div_pos; lia|]. apply Z.div_le_upper_bound; lia. }
    split; [|split; [|split; [|split]]].
    + subst mac_key_bytes. rewrite Hq. apply slice_prefix. lia.
    + subst enc_key_bytes. rewrite Hq. apply slice_from_suffix. lia.
    + subst mac_key_bytes enc_key_bytes. rewrite Hq. apply slice_split. lia.
    + subst mac_key_bytes. rewrite Hq. apply byteLength_slice_prefix. exact Hk.
    + rewrite composite_run.
      replace (enc_key_bits + mac_key_bits) with (mac_key_bits + enc_key_bits) by lia.
      apply Z.eqb_eq in Hlen. rewrite Hlen. cbn [negb].
      unfold bind, ret, call.
      destruct (subtle_importKey "raw" mac_key_bytes (Auth.id auth) false ["sign"])
        as [mac_key|r1|] eqn:Emac;
      destruct (subtle_importKey "raw" enc_key_bytes (ContentEncryption.id config)
                  false ["encrypt"]) as [enc_key|r2|] eqn:Eenc;
      cbn [then_ ret Promise_all fst snd];
      try (destruct (subtle_encrypt (cipher_params this IV) enc_key plaintext)
             as [cipher_text|r3|] eqn:Ecipher;
           cbn [then_ ret Promise_all fst snd]);
      try (destruct (subtle_sign (Auth.id auth) mac_key
                       (mac_input AAD IV cipher_text)) as [mac|r4|] eqn:Esign;
           cbn [then_ ret Promise_all fst snd]);
      unfold ret; cbn [fst snd];
      rewrite <- ?app_assoc;
      (eexists; split;
       [ try reflexivity; rewrite app_nil_r; reflexivity
       | repeat split; cbn [In app]; intros; split_in; subst;
         try discriminate; try reflexivity;
         match goal with
         | Heq : _ = _ :> Call _ |- _ => inversion Heq; subst; reflexivity
         end ]).
  - intros Hlen. rewrite composite_run.
    replace (enc_key_bits + mac_key_bits) with (mac_key_bits + enc_key_bits) by lia.
    apply Z.eqb_neq in Hlen. rewrite Hlen. reflexivity.
Qed.

Variables (mac_key enc_key : CryptoKey) (cipher_text mac : bytes).
Hypothesis Hlength : byteLength cek_bytes * 8 = enc_key_bits + mac_key_bits.
Hypothesis Himport_mac :
  subtle_importKey "raw" mac_key_bytes (Auth.id auth) false ["sign"] = Resolved mac_key.
Hypothesis Himport_enc :
  subtle_importKey "raw" enc_key_bytes (ContentEncryption.id config) false ["encrypt"]
  = Resolved enc_key.
Hypothesis Hcipher :
  subtle_encrypt (cipher_params this IV) enc_key plaintext = Resolved cipher_text.
Hypothesis Hsign :
  subtle_sign (Auth.id auth) mac_key (mac_input AAD IV cipher_text) = Resolved mac.

(** The composite path when every primitive succeeds. *)
Lemma composite_success :
  encryptPlaintext this (Resolved cek) plain_text log =
    (Resolved {| header := protected_header this;
                 iv := IV;
                 cipher := cipher_text;
                 tag := slice mac 0 (div_to_integer truncated_length 8) |},
     after_iv ++ [ExportKey "raw" cek; import_mac; import_enc;
                  Encrypt (cipher_params this IV) enc_key plaintext;
                  Sign (Auth.id auth) mac_key (mac_input AAD IV cipher_text)]).
Proof.
  rewrite composite_run. apply Z.eqb_eq in Hlength. rewrite Hlength. cbn [negb].
  unfold bind, ret, call. rewrite Himport_enc. cbn [then_]. rewrite Hcipher.
  rewrite Himport_mac. cbn [Promise_all then_ fst snd]. rewrite Hsign.
  cbn [Promise_all then_ fst snd]. rewrite <- !app_assoc. reflexivity.
Qed.

End CompositePath.

(** ** Header objects *)

Lemma obj_get_set_same (o : JsObject) (k v : string) :
  obj_get (obj_set o k v) k = Some v.
Proof.
  induction o as [|[k' v'] t IH]; cbn [obj_set obj_get].
  - rewrite String.eqb_refl. reflexivity.
  - destruct (String.eqb k' k) eqn:E; cbn [obj_get]; rewrite E; auto.
Qed.

Lemma obj_get_set_other (o : JsObject) (k v k0 : string) :
  k0 <> k -> obj_get (obj_set o k v) k0 = obj_get o k0.
Proof.
  intros Hne. induction o as [|[k' v'] t IH]; cbn [obj_set obj_get].
  - apply not_eq_sym in Hne. apply String.eqb_neq in Hne. rewrite Hne. reflexivity.
  - destruct (String.eqb k' k) eqn:E; cbn [obj_get].
    + apply String.eqb_eq in E. subst k'.
      apply not_eq_sym in Hne. apply String.eqb_neq in Hne. rewrite Hne. reflexivity.
    + destruct (String.eqb k' k0); auto.
Qed.

Lemma obj_get_In (o : JsObject) (k : string) :
  In k (map fst o) -> obj_get o k <> None.
Proof.
  induction o as [|[k' v'] t IH]; cbn [map fst In obj_get]; [contradiction|].
  intros [Heq|Hin].
  - subst k'. rewrite String.eqb_refl. discriminate.
  - destruct (String.eqb k' k); [discriminate|auto].
Qed.

Lemma obj_get_not_In (o : JsObject) (k : string) :
  ~ In k (map fst o) -> obj_get o k = None.
Proof.
  induction o as [|[k' v'] t IH]; cbn [map fst In obj_get]; [reflexivity|].
  intros Hnot. destruct (String.eqb k' k) eqn:E.
  - apply String.eqb_eq in E. tauto.
  - apply IH. tauto.
Qed.

(** The keys of an object stay distinct under assignment. *)
Lemma obj_set_keys (o : JsObject) (k v : string) :
  map fst (obj_set o k v) = if in_dec string_dec k (map fst o)
                            then map fst o else map fst o ++ [k].
Proof.
  induction o as [|[k' v'] t IH]; cbn [obj_set map fst]; [reflexivity|].
  destruct (String.eqb k' k) eqn:E.
  - apply String.eqb_eq in E. subst k'. cbn [map fst].
    destruct (in_dec string_dec k (k :: map fst t)) as [_|Hn]; [reflexivity|].
    exfalso. apply Hn. left. reflexivity.
  - apply String.eqb_neq in E. cbn [map fst]. rewrite IH.
    destruct (in_dec string_dec k (map fst t)) as [Hin|Hn];
      destruct (in_dec string_dec k (k' :: map fst t)) as [Hin'|Hn'];
      try reflexivity.
    + exfalso. apply Hn'. right. exact Hin.
    + exfalso. destruct Hin' as [Heq|Hin']; [exact (E Heq)|exact (Hn Hin')].
Qed.

Lemma obj_set_NoDup (o : JsObject) (k v : string) :
  NoDup (map fst o) -> NoDup (map fst (obj_set o k v)).
Proof.
  intros Hnd. rewrite obj_set_keys.
  destruct (in_dec string_dec k (map fst o)) as [Hin|Hn]; [exact Hnd|].
  apply NoDup_app; [exact Hnd|constructor; [intros []|constructor]|].
  intros x Hx [Heq|[]]. subst x. exact (Hn Hx).
Qed.

(** The copy loop of lines 66-68, over any list of property names of the
    source object [u]. *)
Lemma copy_loop (u : JsObject) (names : list string) (acc : JsObject) (k : string) :
  (forall i, In i names -> obj_get u i <> None) ->
  obj_get (fold_left (fun headers i =>
                        match obj_get u i with
                        | Some v => obj_set headers i v
                        | None => headers
                        end) names acc) k =
    if in_dec string_dec k names then obj_get u k else obj_get acc k.
Proof.
  revert acc. induction names as [|i names IH]; intros acc Hall; cbn [fold_left].
  - reflexivity.
  - rewrite IH by (intros j Hj; apply Hall; right; exact Hj).
    destruct (obj_get u i) as [v|] eqn:Ei; [|exfalso; apply (Hall i); [left; reflexivity|exact Ei]].
    destruct (in_dec string_dec k names) as [Hin|Hn];
      destruct (in_dec string_dec k (i :: names)) as [Hin'|Hn']; try reflexivity.
    + exfalso. apply Hn'. right. exact Hin.
    + destruct Hin' as [Heq|Hin']; [|contradiction].
      subst i. rewrite obj_get_set_same. symmetry. exact Ei.
    + apply obj_get_set_other. intros Heq. apply Hn'. left. symmetry. exact Heq.
Qed.


Section HeaderBuilder.
Context {CryptoKey : Type} {U : JoseUtils} {H : Host}
        {C : Encrypter.Cryptographer CryptoKey}.
Import Encrypter.

(** What the header object holds. *)
Lemma headers_of_lookup (this : This CryptoKey) :
  obj_get (headers_of this) "alg" = Some getKeyEncryptionAlgorithm /\
  obj_get (headers_of this) "enc" = Some getContentEncryptionAlgorithm /\
  (forall k, k <> "alg" -> k <> "enc" ->
             obj_get (headers_of this) k = obj_get (userHeaders this) k).
Proof.
  unfold headers_of. split; [|split].
  - rewrite obj_get_set_other by discriminate. apply obj_get_set_same.
  - apply obj_get_set_same.
  - intros k Halg Henc. rewrite !obj_get_set_other by assumption.
    rewrite copy_loop by (intros i Hi; apply obj_get_In; exact Hi).
    destruct (in_dec string_dec k (map fst (userHeaders this))) as [Hin|Hn].
    + reflexivity.
    + cbn [obj_get]. symmetry. apply obj_get_not_In. exact Hn.
Qed.

End HeaderBuilder.

(** ** [Encrypter.encrypt] *)

Section EncrypterFacts.
Context {CryptoKey : Type} {U : JoseUtils} {H : Host}
        {C : Encrypter.Cryptographer CryptoKey}.
Import Encrypter.

Variables (this : This CryptoKey) (uint8Array : bytes).

Let jweProtectedHeader := Base64Url_encode (JSON_stringify (headers_of this)).
Let IV := cryptographer_createIV.
Let AAD := arrayFromString jweProtectedHeader.

(** The local function: one IV, one call of the cryptographer with the AAD
    taken from the encoded header. *)
Lemma encryptPlainText_local_run (cekPromise : Promise CryptoKey)
      (log : list (Call CryptoKey)) :
  encryptPlainText_local this cekPromise uint8Array log =
    (match cryptographer_encrypt IV AAD cekPromise uint8Array with
     | Resolved r => Resolved {| header := jweProtectedHeader;
                                 iv := IV;
                                 cipher := r_cipher r;
                                 tag := r_tag r |}
     | Rejected reason => Rejected reason
     | Pending => Pending
     end,
     log ++ [CreateIV; EncryptContent IV AAD cekPromise uint8Array]).
Proof.
  unfold encryptPlainText_local, bind, call. fold jweProtectedHeader IV AAD.
  rewrite <- app_assoc.
  destruct (cryptographer_encrypt IV AAD cekPromise uint8Array); reflexivity.
Qed.

(** [encrypt] under direct key management. *)
Lemma encrypt_dir_run (presetCEK : option (Promise CryptoKey))
      (log : list (Call CryptoKey)) :
  getKeyEncryptionAlgorithm = "dir" ->
  encrypt this uint8Array presetCEK log =
    (match cryptographer_encrypt IV AAD (keyPromise this) uint8Array with
     | Resolved r =>
         Resolved (serialize [] {| header := jweProtectedHeader;
                                   iv := IV;
                                   cipher := r_cipher r;
                                   tag := r_tag r |})
     | Rejected reason => Rejected reason
     | Pending => Pending
     end,
     log ++ [CreateIV; EncryptContent IV AAD (keyPromise this) uint8Array]).
Proof.
  intros Hdir. unfold encrypt. rewrite Hdir. cbn [String.eqb Ascii.eqb Bool.eqb].
  unfold bind at 1. unfold ret at 1. cbn [fst snd]. unfold bind.
  rewrite encryptPlainText_local_run.
  destruct (cryptographer_encrypt IV AAD (keyPromise this) uint8Array); reflexivity.
Qed.

(** The CEK, the wrapped key and the calls of lines 89-112 when the key
    management is not direct. *)
Let cek_of (presetCEK : option (Promise CryptoKey)) : Promise CryptoKey :=
  match presetCEK with
  | None => cryptographer_createCek
  | Some preset => preset
  end.

Let wrapped_of (cekPromise : Promise CryptoKey) : Promise bytes :=
  match Promise_all (keyPromise this) cekPromise with
  | Resolved all => cryptographer_wrapCek (snd all) (fst all)
  | Rejected reason => Rejected reason
  | Pending => Pending
  end.

Let cek_calls (presetCEK : option (Promise CryptoKey)) : list (Call CryptoKey) :=
  match presetCEK with
  | None => [ConsoleDebug "generating CEK"; CreateCek;
             ConsoleDebugValue "cekPromise:" cryptographer_createCek]
  | Some preset => [ConsoleDebug "using presetCEK";
                    ConsoleDebugValue "cekPromise:" preset]
  end ++
  match Promise_all (keyPromise this) (cek_of presetCEK) with
  | Resolved all => [WrapCek (snd all) (fst all)]
  | _ => []
  end.

(** The outcome of [encrypt] from the wrapped key and the CEK. *)
Let outcome (encryptedCek : Promise bytes) (cekPromise : Promise CryptoKey)
  : Promise string :=
  match Promise_all encryptedCek
          (match cryptographer_encrypt IV AAD cekPromise uint8Array with
           | Resolved r => Resolved {| header := jweProtectedHeader;
                                       iv := IV;
                                       cipher := r_cipher r;
                                       tag := r_tag r |}
           | Rejected reason => Rejected reason
           | Pending => Pending
           end) with
  | Resolved all => Resolved (serialize (fst all) (snd all))
  | Rejected reason => Rejected reason
  | Pending => Pending
  end.

(** [encrypt] when the key management is not direct. *)
Lemma encrypt_wrapped_run (presetCEK : option (Promise CryptoKey))
      (log : list (Call CryptoKey)) :
  getKeyEncryptionAlgorithm <> "dir" ->
  encrypt this uint8Array presetCEK log =
    (outcome (wrapped_of (cek_of presetCEK)) (cek_of presetCEK),
     log ++ cek_calls presetCEK ++
       [CreateIV; EncryptContent IV AAD (cek_of presetCEK) uint8Array]).
Proof.
  intros Hne. apply String.eqb_neq in Hne.
  unfold encrypt. rewrite Hne.
  unfold outcome, wrapped_of, cek_calls, cek_of, bind, call, ret.
  destruct presetCEK as [preset|]; cbn [fst snd].
  - destruct (keyPromise this) as [key|r1|]; destruct preset as [cek|r2|];
      cbn [Promise_all then_ fst snd]; unfold ret; cbn [fst snd];
      try destruct (cryptographer_wrapCek cek key) as [w|r3|];
      cbn [fst snd]; rewrite encryptPlainText_local_run;
      fold IV AAD jweProtectedHeader;
      destruct (cryptographer_encrypt IV AAD _ uint8Array) as [r|r4|];
      cbn [Promise_all then_ fst snd]; unfold ret;
      rewrite <- ?app_assoc; reflexivity.
  - destruct (keyPromise this) as [key|r1|];
      destruct cryptographer_createCek as [cek|r2|];
      cbn [Promise_all then_ fst snd]; unfold ret; cbn [fst snd];
      try destruct (cryptographer_wrapCek cek key) as [w|r3|];
      cbn [fst snd]; rewrite encryptPlainText_local_run;
      fold IV AAD jweProtectedHeader;
      destruct (cryptographer_encrypt IV AAD _ uint8Array) as [r|r4|];
      cbn [Promise_all then_ fst snd]; unfold ret;
      rewrite <- ?app_assoc; reflexivity.
Qed.


(** C10: when the key-management algorithm is ["dir"], two runs of
    [Encrypter.encrypt] that differ only in [presetCEK] have the same
    outcome and make the same calls. *)
Theorem C10_presetCEK_ignored_when_direct (presetCEK1 presetCEK2 : option (Promise CryptoKey))
        (log : list (Call CryptoKey)) :
  getKeyEncryptionAlgorithm = "dir" ->
  encrypt this uint8Array presetCEK1 log = encrypt this uint8Array presetCEK2 log.
Proof.
  intros Hdir. rewrite !encrypt_dir_run by exact Hdir. reflexivity.
Qed.
End EncrypterFacts.

(** ** The calls of [encryptPlaintext], whatever the primitives answer *)

Section EveryRun.
Context {CryptoKey : Type} {U : JoseUtils} {H : Host} {W : WebCrypto CryptoKey}.
Import JoseJWE.

Variables (this : This CryptoKey) (cek_promise : Promise CryptoKey)
          (plain_text : string) (log : list (Call CryptoKey)).

Let auth := ContentEncryption.auth (content_encryption this).
Let IV := fst (createIV this log).
Let AAD := arrayFromString (protected_header this).

Lemma encryptPlaintext_calls :
  exists calls,
    snd (encryptPlaintext this cek_promise plain_text log) =
      snd (createIV this log) ++ calls /\
    (forall p key data,
        In (Encrypt p key data) calls -> Auth.aead auth = true ->
        additionalData p = Some AAD) /\
    (forall alg key buf,
        In (Sign alg key buf) calls ->
        exists cipher_text, buf = AAD ++ IV ++ cipher_text ++ al_bigendian AAD) /\
    (forall data,
        fst (encryptPlaintext this cek_promise plain_text log) = Resolved data ->
        header data = protected_header this /\ iv data = IV).
Proof.
  subst IV. unfold encryptPlaintext, bind.
  destruct (createIV this log) as [iv0 log1]. cbn [fst snd]. fold auth.
  assert (Hnil : forall l : list (Call CryptoKey), l = l ++ [])
    by (intros; rewrite app_nil_r; reflexivity).
  assert (Hbuf : forall ct, mac_input AAD iv0 ct = AAD ++ iv0 ++ ct ++ al_bigendian AAD).
  { intros ct. unfold mac_input, arrayBufferConcat. cbn [List.concat].
    rewrite app_nil_r. reflexivity. }
  destruct (negb (byteLength iv0 =? _)).
  { exists []. cbn [ret fst snd In]. repeat split; try contradiction; try discriminate; auto. }
  destruct (Auth.aead auth) eqn:Haead.
  - destruct (not_multiple_of (Auth.tag_length auth) 8).
    { exists []. cbn [ret fst snd In]. repeat split; try contradiction; try discriminate; auto. }
    destruct cek_promise as [cek|r|]; cbn [then_].
    2,3: exists []; cbn [ret fst snd In]; repeat split; try contradiction; try discriminate; auto.
    unfold bind, call.
    destruct (subtle_encrypt _ cek _) as [ct|r|]; cbn [then_ ret fst snd];
      (eexists; split; [reflexivity|]);
      (split; [|split]); intros; cbn [In] in *; split_in; try discriminate;
      match goal with
      | Heq : _ = _ :> Call _ |- _ => inversion Heq; subst; reflexivity
      | Heq : Resolved _ = Resolved _ |- _ => inversion Heq; split; reflexivity
      end.
  - destruct (not_multiple_of (Auth.truncated_length auth) 8).
    { exists []. cbn [ret fst snd In]. repeat split; try contradiction; try discriminate; auto. }
    destruct cek_promise as [cek|r|]; cbn [then_].
    2,3: exists []; cbn [ret fst snd In Promise_all then_];
         repeat split; try contradiction; try discriminate; auto.
    unfold call.
    destruct (subtle_exportKey "raw" cek) as [cek_bytes|r|];
      cbn [then_ ret Promise_all fst snd].
    2,3: eexists; (split; [rewrite <- ?app_assoc; reflexivity|]);
         (split; [|split]); intros; cbn [In app] in *; split_in; discriminate.
    destruct (negb (byteLength cek_bytes * 8 =? _));
      cbn [then_ ret Promise_all fst snd].
    { eexists; (split; [rewrite <- ?app_assoc; reflexivity|]);
      (split; [|split]); intros; cbn [In app] in *; split_in; discriminate. }
    destruct (subtle_importKey "raw" _ (Auth.id auth) false ["sign"]) as [mac_key|r1|];
      destruct (subtle_importKey "raw" _ _ false ["encrypt"]) as [enc_key|r2|];
      cbn [then_ ret Promise_all fst snd];
      try (destruct (subtle_encrypt _ enc_key _) as [ct|r3|];
           cbn [then_ ret Promise_all fst snd]);
      try (rewrite Hbuf; destruct (subtle_sign (Auth.id auth) mac_key _) as [mac|r4|];
           cbn [then_ ret Promise_all fst snd]);
      unfold ret; cbn [fst snd];
      (eexists; split; [rewrite <- ?app_assoc; reflexivity|]);
      (split; [|split]); intros; cbn [In app] in *; split_in; try discriminate;
      match goal with
      | Heq : Encrypt _ _ _ = Encrypt _ _ _ |- _ => congruence
      | Heq : Sign _ _ _ = Sign _ _ _ |- _ => inversion Heq; subst; eexists; reflexivity
      | Heq : Resolved _ = Resolved _ |- _ => inversion Heq; split; reflexivity
      end.
Qed.
End EveryRun.

(** ** The composite path once the cipher has answered *)

Section MacIsComputed.
Context {CryptoKey : Type} {U : JoseUtils} {H : Host} {W : WebCrypto CryptoKey}.
Import JoseJWE.

Variables (this : This CryptoKey) (cek : CryptoKey) (plain_text : string)
          (log : list (Call CryptoKey)) (cek_bytes : bytes)
          (mac_key enc_key : CryptoKey) (cipher_text : bytes).

Let config := content_encryption this.
Let auth := ContentEncryption.auth config.
Let IV := fst (createIV this log).
Let AAD := arrayFromString (protected_header this).
Let plaintext := arrayFromString plain_text.
Let mac_key_bytes := slice cek_bytes 0 (div_to_integer (Auth.key_size auth) 8).
Let enc_key_bytes := slice_from cek_bytes (div_to_integer (Auth.key_size auth) 8).

Hypothesis Hiv : byteLength IV = Z.of_nat (ContentEncryption.iv_length config).
Hypothesis Haead : Auth.aead auth = false.
Hypothesis Htrunc : Auth.truncated_length auth mod 8 = 0.
Hypothesis Hexport : subtle_exportKey "raw" cek = Resolved cek_bytes.
Hypothesis Hlength :
  byteLength cek_bytes * 8 =
    Alg.length (ContentEncryption.id config) + Auth.key_size auth.
Hypothesis Himport_mac :
  subtle_importKey "raw" mac_key_bytes (Auth.id auth) false ["sign"] = Resolved mac_key.
Hypothesis Himport_enc :
  subtle_importKey "raw" enc_key_bytes (ContentEncryption.id config) false ["encrypt"]
  = Resolved enc_key.
Hypothesis Hcipher :
  subtle_encrypt (cipher_params this IV) enc_key plaintext = Resolved cipher_text.

(** The five calls that follow [createIV], whatever the MAC answers. *)
Lemma composite_calls :
  snd (encryptPlaintext this (Resolved cek) plain_text log) =
    snd (createIV this log) ++
    [ExportKey "raw" cek;
     ImportKey "raw" mac_key_bytes (Auth.id auth) false ["sign"];
     ImportKey "raw" enc_key_bytes (ContentEncryption.id config) false ["encrypt"];
     Encrypt (cipher_params this IV) enc_key plaintext;
     Sign (Auth.id auth) mac_key (AAD ++ IV ++ cipher_text ++ al_bigendian AAD)].
Proof.
  rewrite (composite_run this cek plain_text log Hiv Haead Htrunc cek_bytes Hexport).
  fold config auth. apply Z.eqb_eq in Hlength. rewrite Hlength. cbn [negb].
  fold mac_key_bytes enc_key_bytes IV AAD plaintext.
  unfold bind, ret, call. rewrite Himport_enc. cbn [then_]. rewrite Hcipher.
  rewrite Himport_mac. cbn [Promise_all then_ fst snd].
  assert (Hbuf : mac_input AAD IV cipher_text =
                 AAD ++ IV ++ cipher_text ++ al_bigendian AAD).
  { unfold mac_input, arrayBufferConcat. cbn [List.concat].
    rewrite app_nil_r. reflexivity. }
  rewrite Hbuf.
  destruct (subtle_sign (Auth.id auth) mac_key _) as [mac|r|];
    cbn [Promise_all then_ fst snd]; rewrite <- !app_assoc; reflexivity.
Qed.
End MacIsComputed.

(** ** Serialization and the AAD *)

Lemma periods_app (s t : string) :
  periods (s ++ t) = (periods s + periods t)%nat.
Proof.
  induction s as [|c s IH]; cbn [String.append periods]; [reflexivity|].
  destruct (Ascii.eqb c "."); rewrite IH; reflexivity.
Qed.

Lemma periods_joined (a b c d e : string) :
  periods a = 0%nat -> periods b = 0%nat -> periods c = 0%nat ->
  periods d = 0%nat -> periods e = 0%nat ->
  periods (String.concat "." [a; b; c; d; e]) = 4%nat.
Proof.
  intros Ha Hb Hc Hd He. cbn [String.concat].
  rewrite !periods_app, Ha, Hb, Hc, Hd, He. reflexivity.
Qed.

Section Pipeline.
Context {CryptoKey : Type} {U : JoseUtils} {H : Host}
        {W : WebCrypto CryptoKey} {C : Encrypter.Cryptographer CryptoKey}.

(** C9: the string of every successful call is the base64url encodings of
    header, wrapped key, IV, ciphertext and tag, in that order, joined by
    periods: five segments and, when the encoder emits no period, exactly
    four periods. Both routines. *)
Theorem C9_compact_serialization :
  (forall (this : Encrypter.This CryptoKey) (uint8Array : bytes)
          (presetCEK : option (Promise CryptoKey))
          (log : list (Encrypter.Call CryptoKey)) (s : string),
      fst (Encrypter.encrypt this uint8Array presetCEK log) = Resolved s ->
      exists (encryptedCek : bytes) (data : Encrypter.Data),
        s = String.concat "."
              [Encrypter.header data;
               Base64Url_encodeArray encryptedCek;
               Base64Url_encodeArray (Encrypter.iv data);
               Base64Url_encodeArray (Encrypter.cipher data);
               Base64Url_encodeArray (Encrypter.tag data)] /\
        Encrypter.header data =
          Base64Url_encode (JSON_stringify (Encrypter.headers_of this)) /\
        Encrypter.iv data = Encrypter.cryptographer_createIV /\
        (exists cekPromise r,
            Encrypter.cryptographer_encrypt Encrypter.cryptographer_createIV
              (arrayFromString (Encrypter.header data)) cekPromise uint8Array
            = Resolved r /\
            Encrypter.cipher data = Encrypter.r_cipher r /\
            Encrypter.tag data = Encrypter.r_tag r) /\
        (Encrypter.getKeyEncryptionAlgorithm = "dir" -> encryptedCek = []) /\
        (Encrypter.getKeyEncryptionAlgorithm <> "dir" ->
         exists cek key,
           Encrypter.cryptographer_wrapCek cek key = Resolved encryptedCek) /\
        ((forall b, periods (Base64Url_encodeArray b) = 0%nat) ->
         periods (Encrypter.header data) = 0%nat -> periods s = 4%nat)) /\
  (forall (this : JoseJWE.This CryptoKey) (key_promise : Promise CryptoKey)
          (plain_text : string) (log : list (JoseJWE.Call CryptoKey)) (s : string),
      fst (JoseJWE.encrypt this key_promise plain_text log) = Resolved s ->
      exists cek_promise log1 log2 (encrypted_cek : bytes) (data : JoseJWE.Data),
        JoseJWE.createCEK this ["encrypt"] log = (cek_promise, log1) /\
        JoseJWE.encryptCek this key_promise cek_promise log1
        = (Resolved encrypted_cek, log2) /\
        fst (JoseJWE.encryptPlaintext this cek_promise plain_text log2)
        = Resolved data /\
        JoseJWE.header data = JoseJWE.protected_header this /\
        s = String.concat "."
              [JoseJWE.header data;
               Base64Url_encodeArrayBuffer encrypted_cek;
               Base64Url_encodeArrayBuffer (JoseJWE.iv data);
               Base64Url_encodeArrayBuffer (JoseJWE.cipher data);
               Base64Url_encodeArrayBuffer (JoseJWE.tag data)] /\
        ((forall b, periods (Base64Url_encodeArrayBuffer b) = 0%nat) ->
         periods (JoseJWE.header data) = 0%nat -> periods s = 4%nat)).
Proof.
  split.
  - intros this uint8Array presetCEK log s.
    destruct (string_dec Encrypter.getKeyEncryptionAlgorithm "dir") as [Hdir|Hne].
    + rewrite (encrypt_dir_run this uint8Array presetCEK log Hdir). cbn [fst].
      destruct (Encrypter.cryptographer_encrypt _ _ (Encrypter.keyPromise this) _)
        as [r|r|] eqn:Er; intros Hs; inversion Hs.
      eexists. eexists. split; [reflexivity|].
      cbn [Encrypter.header Encrypter.iv Encrypter.cipher Encrypter.tag].
      repeat split; try reflexivity.
      * eexists. eexists. split; [exact Er|split; reflexivity].
      * intros Hne. contradiction.
      * intros Henc Hhdr. change (Encrypter.serialize _ _) with
          (String.concat "."
             [Base64Url_encode (JSON_stringify (Encrypter.headers_of this));
              Base64Url_encodeArray [];
              Base64Url_encodeArray Encrypter.cryptographer_createIV;
              Base64Url_encodeArray (Encrypter.r_cipher r);
              Base64Url_encodeArray (Encrypter.r_tag r)]).
        apply periods_joined; auto.
    + rewrite (encrypt_wrapped_run this uint8Array presetCEK log Hne). cbn [fst].
      destruct (Encrypter.cryptographer_encrypt _ _ _ _) as [r|r|] eqn:Er;
        destruct (Promise_all (Encrypter.keyPromise this) _) as [[key cek]|r0|];
        cbn [fst snd];
        try destruct (Encrypter.cryptographer_wrapCek cek key) as [w|r1|] eqn:Ew;
        cbn [Promise_all fst snd]; intros Hs; inversion Hs.
      eexists. eexists. split; [reflexivity|].
      cbn [Encrypter.header Encrypter.iv Encrypter.cipher Encrypter.tag].
      repeat split; try reflexivity.
      * eexists. eexists. split; [exact Er|split; reflexivity].
      * intros Hdir. contradiction.
      * intros _. exists cek, key. exact Ew.
      * intros Henc Hhdr. change (Encrypter.serialize _ _) with
          (String.concat "."
             [Base64Url_encode (JSON_stringify (Encrypter.headers_of this));
              Base64Url_encodeArray w;
              Base64Url_encodeArray Encrypter.cryptographer_createIV;
              Base64Url_encodeArray (Encrypter.r_cipher r);
              Base64Url_encodeArray (Encrypter.r_tag r)]).
        apply periods_joined; auto.
  - intros this key_promise plain_text log s.
    unfold JoseJWE.encrypt, bind.
    destruct (JoseJWE.createCEK this ["encrypt"] log) as [cek_promise log1] eqn:Ecek.
    destruct (JoseJWE.encryptCek this key_promise cek_promise log1)
      as [encrypted_cek log2] eqn:Ewrap.
    destruct (encryptPlaintext_calls this cek_promise plain_text log2)
      as (calls & _ & _ & _ & Hres).
    destruct (JoseJWE.encryptPlaintext this cek_promise plain_text log2)
      as [enc_promise log3] eqn:Eenc.
    cbn [fst] in Hres.
    destruct encrypted_cek as [e|r|]; destruct enc_promise as [data|r'|];
      cbn [Promise_all then_ ret fst snd]; intros Hs; inversion Hs.
    destruct (Hres data eq_refl) as [Hheader _].
    exists cek_promise, log1, log2, e, data.
    split; [reflexivity|]. split; [exact Ewrap|].
    split; [rewrite Eenc; reflexivity|]. split; [exact Hheader|].
    split; [reflexivity|].
    intros Henc Hhdr.
    change (JoseJWE.serialize e data) with
      (String.concat "."
         [JoseJWE.header data;
          Base64Url_encodeArrayBuffer e;
          Base64Url_encodeArrayBuffer (JoseJWE.iv data);
          Base64Url_encodeArrayBuffer (JoseJWE.cipher data);
          Base64Url_encodeArrayBuffer (JoseJWE.tag data)]).
    apply periods_joined; auto.
Qed.

(** C4: in both routines the AAD is the bytes [arrayFromString] gives for
    the base64url-encoded header string, which is the first segment of the
    output. [encryptPlaintext] makes the AEAD call with it as
    [additionalData] once the parameters are valid and the CEK is there,
    and on the composite path makes the MAC call over a buffer that begins
    with it once the cipher has answered; no cipher call of the AEAD path
    and no MAC call carries anything else. [Encrypter.encrypt] hands it to
    [cryptographer.encrypt] in every call. Where [arrayFromString] tells
    strings apart, the encoder emits only characters of the base64url
    alphabet and the JSON text of an object begins with a brace, the AAD
    is never the bytes of the JSON text. *)
Theorem C4_aad_is_the_encoded_header :
  (forall (this : JoseJWE.This CryptoKey) (cek_promise : Promise CryptoKey)
          (plain_text : string) (log : list (JoseJWE.Call CryptoKey)),
      let segment := JoseJWE.protected_header this in
      let aad := arrayFromString segment in
      let config := JoseJWE.content_encryption this in
      let auth := JoseJWE.ContentEncryption.auth config in
      let iv := fst (JoseJWE.createIV this log) in
      let plaintext := arrayFromString plain_text in
      exists calls,
        snd (JoseJWE.encryptPlaintext this cek_promise plain_text log) =
          snd (JoseJWE.createIV this log) ++ calls /\
        (forall cek,
            JoseJWE.Auth.aead auth = true ->
            byteLength iv = Z.of_nat (JoseJWE.ContentEncryption.iv_length config) ->
            JoseJWE.Auth.tag_length auth mod 8 = 0 ->
            cek_promise = Resolved cek ->
            calls = [JoseJWE.Encrypt (JoseJWE.aead_params this iv aad) cek plaintext] /\
            additionalData (JoseJWE.aead_params this iv aad) = Some aad) /\
        (forall cek cek_bytes mac_key enc_key cipher_text,
            JoseJWE.Auth.aead auth = false ->
            byteLength iv = Z.of_nat (JoseJWE.ContentEncryption.iv_length config) ->
            JoseJWE.Auth.truncated_length auth mod 8 = 0 ->
            cek_promise = Resolved cek ->
            subtle_exportKey "raw" cek = Resolved cek_bytes ->
            byteLength cek_bytes * 8 =
              Alg.length (JoseJWE.ContentEncryption.id config) +
              JoseJWE.Auth.key_size auth ->
            subtle_importKey "raw"
              (slice cek_bytes 0 (div_to_integer (JoseJWE.Auth.key_size auth) 8))
              (JoseJWE.Auth.id auth) false ["sign"] = Resolved mac_key ->
            subtle_importKey "raw"
              (slice_from cek_bytes (div_to_integer (JoseJWE.Auth.key_size auth) 8))
              (JoseJWE.ContentEncryption.id config) false ["encrypt"]
            = Resolved enc_key ->
            subtle_encrypt (JoseJWE.cipher_params this iv) enc_key plaintext
            = Resolved cipher_text ->
            In (JoseJWE.Sign (JoseJWE.Auth.id auth) mac_key
                  (aad ++ iv ++ cipher_text ++ JoseJWE.al_bigendian aad)) calls) /\
        (forall p key data,
            In (JoseJWE.Encrypt p key data) calls ->
            JoseJWE.Auth.aead auth = true -> additionalData p = Some aad) /\
        (forall alg key buf,
            In (JoseJWE.Sign alg key buf) calls ->
            exists cipher_text,
              buf = aad ++ iv ++ cipher_text ++ JoseJWE.al_bigendian aad) /\
        (forall data,
            fst (JoseJWE.encryptPlaintext this cek_promise plain_text log)
            = Resolved data ->
            JoseJWE.header data = segment /\
            forall encrypted_cek, exists rest,
              JoseJWE.serialize encrypted_cek data = (segment ++ "." ++ rest)%string)) /\
  (forall (this : Encrypter.This CryptoKey) (uint8Array : bytes)
          (presetCEK : option (Promise CryptoKey))
          (log : list (Encrypter.Call CryptoKey)),
      let segment := Base64Url_encode (JSON_stringify (Encrypter.headers_of this)) in
      let aad := arrayFromString segment in
      exists calls cekPromise,
        snd (Encrypter.encrypt this uint8Array presetCEK log) = log ++ calls /\
        In (Encrypter.EncryptContent Encrypter.cryptographer_createIV aad
              cekPromise uint8Array) calls /\
        (forall iv0 aad0 p data,
            In (Encrypter.EncryptContent iv0 aad0 p data) calls -> aad0 = aad) /\
        (forall s,
            fst (Encrypter.encrypt this uint8Array presetCEK log) = Resolved s ->
            exists rest, s = (segment ++ "." ++ rest)%string)) /\
  ((forall s t, arrayFromString s = arrayFromString t -> s = t) ->
   (forall s c, In c (list_ascii_of_string (Base64Url_encode s)) ->
                In c (list_ascii_of_string Demo.alphabet)) ->
   (forall o, exists rest, JSON_stringify o = String "{" rest) ->
   (forall this : JoseJWE.This CryptoKey,
       arrayFromString (JoseJWE.protected_header this) <>
       arrayFromString
         (JSON_stringify
            [("alg", JoseJWE.KeyEncryption.jwe_name (JoseJWE.key_encryption this));
             ("enc", JoseJWE.ContentEncryption.jwe_name
                       (JoseJWE.content_encryption this))])) /\
   (forall this : Encrypter.This CryptoKey,
       arrayFromString (Base64Url_encode (JSON_stringify (Encrypter.headers_of this)))
       <> arrayFromString (JSON_stringify (Encrypter.headers_of this)))).
Proof.
  split; [|split].
  - intros this cek_promise plain_text log segment aad config auth iv plaintext.
    destruct (encryptPlaintext_calls this cek_promise plain_text log)
      as (calls & Hlog & Henc & Hsign & Hres).
    exists calls. split; [exact Hlog|]. split; [|split; [|split; [|split]]].
    + intros cek Haead Hiv Htag Hcek. split; [|reflexivity].
      subst cek_promise. apply (app_inv_head (snd (JoseJWE.createIV this log))).
      rewrite <- Hlog.
      rewrite (aead_run this cek plain_text log Hiv Haead Htag).
      fold segment aad iv plaintext.
      destruct (subtle_encrypt (JoseJWE.aead_params this iv aad) cek plaintext);
        reflexivity.
    + intros cek cek_bytes mac_key enc_key cipher_text
             Haead Hiv Htrunc Hcek Hexport Hlength Hmac Henc_key Hcipher.
      subst cek_promise.
      assert (Hcalls : calls =
                [JoseJWE.ExportKey "raw" cek;
                 JoseJWE.ImportKey "raw"
                   (slice cek_bytes 0 (div_to_integer (JoseJWE.Auth.key_size auth) 8))
                   (JoseJWE.Auth.id auth) false ["sign"];
                 JoseJWE.ImportKey "raw"
                   (slice_from cek_bytes
                      (div_to_integer (JoseJWE.Auth.key_size auth) 8))
                   (JoseJWE.ContentEncryption.id config) false ["encrypt"];
                 JoseJWE.Encrypt (JoseJWE.cipher_params this iv) enc_key plaintext;
                 JoseJWE.Sign (JoseJWE.Auth.id auth) mac_key
                   (aad ++ iv ++ cipher_text ++ JoseJWE.al_bigendian aad)]).
      { apply (app_inv_head (snd (JoseJWE.createIV this log))).
        rewrite <- Hlog.
        apply (composite_calls this cek plain_text log cek_bytes mac_key enc_key
                 cipher_text Hiv Haead Htrunc Hexport Hlength Hmac Henc_key Hcipher). }
      rewrite Hcalls. cbn [In]. auto 10.
    + exact Henc.
    + exact Hsign.
    + intros data Hdata. destruct (Hres data Hdata) as [Hheader _].
      split; [exact Hheader|]. intros encrypted_cek.
      unfold JoseJWE.serialize. rewrite Hheader. eexists. reflexivity.
  - intros this uint8Array presetCEK log segment aad.
    destruct (string_dec Encrypter.getKeyEncryptionAlgorithm "dir") as [Hdir|Hne].
    + rewrite (encrypt_dir_run this uint8Array presetCEK log Hdir). cbn [fst snd].
      eexists. eexists. split; [reflexivity|]. split; [cbn [In]; auto|]. split.
      * intros iv0 aad0 p data Hin. cbn [In] in Hin. split_in; try discriminate.
        inversion Hin. reflexivity.
      * intros s Hs.
        destruct (Encrypter.cryptographer_encrypt _ _ _ _) as [r|r|]; inversion Hs.
        unfold Encrypter.serialize. cbn [Encrypter.header]. eexists. reflexivity.
    + rewrite (encrypt_wrapped_run this uint8Array presetCEK log Hne). cbn [fst snd].
      eexists. eexists. split; [reflexivity|].
      split; [apply in_or_app; right; cbn [In]; auto|]. split.
      * intros iv0 aad0 p data Hin.
        apply in_app_or in Hin. destruct Hin as [Hin|Hin].
        -- apply in_app_or in Hin. exfalso.
           destruct Hin as [Hin|Hin].
           ++ destruct presetCEK; cbn [In] in Hin; split_in; discriminate.
           ++ destruct (Promise_all _ _); cbn [In] in Hin; split_in; discriminate.
        -- cbn [In] in Hin. split_in; try discriminate. inversion Hin. reflexivity.
      * intros s Hs.
        destruct (Encrypter.cryptographer_encrypt _ _ _ _) as [r|r|];
        destruct (Promise_all (Encrypter.keyPromise this) _) as [[key cek]|r0|];
        cbn [fst snd] in Hs;
        try destruct (Encrypter.cryptographer_wrapCek cek key) as [w|r1|];
        cbn [Promise_all fst snd] in Hs; inversion Hs.
        unfold Encrypter.serialize. cbn [Encrypter.header]. eexists. reflexivity.
  - intros Hinj Halphabet Hbrace.
    assert (Hnever : forall o : JsObject,
               arrayFromString (Base64Url_encode (JSON_stringify o)) <>
               arrayFromString (JSON_stringify o)).
    { intros o Heq. apply Hinj in Heq.
      destruct (Hbrace o) as [rest Hjson].
      pose proof (Halphabet (JSON_stringify o) "{"%char) as Hin.
      rewrite Heq, Hjson in Hin. cbn [list_ascii_of_string In] in Hin.
      specialize (Hin (or_introl eq_refl)).
      unfold Demo.alphabet in Hin. cbn [list_ascii_of_string In] in Hin.
      split_in; discriminate. }
    split; intros this; apply Hnever.
Qed.
End Pipeline.

(** ** The statements on a concrete platform *)

Lemma digit_not_period (i : Z) : Ascii.eqb (Demo.digit i) "." = false.
Proof.
  unfold Demo.digit. generalize (Z.to_nat i) as n. intros n.
  do 64 (destruct n as [|n]; [reflexivity|]). reflexivity.
Qed.

Lemma base64url_no_period (b : bytes) : periods (Demo.base64url b) = 0%nat.
Proof.
  assert (Hn : forall (n : nat) (l : bytes),
             (List.length l <= n)%nat -> periods (Demo.base64url l) = 0%nat).
  { induction n as [|n IH]; intros l Hl;
      destruct l as [|x [|y [|z t]]];
      cbn [Demo.base64url periods]; rewrite ?digit_not_period;
      try reflexivity; cbn [List.length] in Hl; try lia.
    apply IH. lia. }
  apply (Hn (List.length b)). apply Nat.le_refl.
Qed.

Lemma N_of_ascii_inj (a b : ascii) : N_of_ascii a = N_of_ascii b -> a = b.
Proof.
  intros Heq. rewrite <- (ascii_N_embedding a), <- (ascii_N_embedding b).
  rewrite Heq. reflexivity.
Qed.

Lemma char_codes_inj (s t : string) :
  Demo.char_codes s = Demo.char_codes t -> s = t.
Proof.
  unfold Demo.char_codes. revert t.
  induction s as [|a s IH]; intros [|b t]; cbn [list_ascii_of_string map];
    intros Heq; try discriminate; [reflexivity|].
  injection Heq as Hhead Htail.
  apply N2Z.inj in Hhead. apply N_of_ascii_inj in Hhead.
  rewrite Hhead, (IH t Htail). reflexivity.
Qed.

(** C2 on ["hello"] under [A128GCM]: five bytes of ciphertext, sixteen of tag. *)
Lemma C2_aead_output_split_witness :
  exists data,
    fst (Demo.run (Demo.jwe Demo.A128GCM) Demo.key16) = Resolved data /\
    JoseJWE.cipher data = [105; 100; 109; 109; 110] /\
    byteLength (JoseJWE.tag data) = 16.
Proof.
  destruct (@C2_aead_output_split bytes Demo.utils_le Demo.host Demo.webcrypto
              (Demo.jwe Demo.A128GCM) Demo.key16 "hello" []
              eq_refl eq_refl eq_refl _ eq_refl)
    as (data & Hres & Hcat & Hcipher & Htag & Hlt & Hlc & Hl).
  - vm_compute. discriminate.
  - reflexivity.
  - exists data. split; [exact Hres|]. split; [|exact Hlt].
    rewrite Hcipher. reflexivity.
Defined.

(** C3 on a CEK of 32 bytes, split 16/16, and on one of 16 bytes, refused. *)
Lemma C3_cek_split_witness :
  (exists rest,
      snd (Demo.run (Demo.jwe Demo.A128CBC_HS256) Demo.key32) =
        [JoseJWE.GetRandomValues (repeat 0 16)] ++
        [JoseJWE.ExportKey "raw" Demo.key32;
         JoseJWE.ImportKey "raw" (map Z.of_nat (seq 1 16))
           {| Alg.name := "HMAC"; Alg.length := 0; Alg.hash := "SHA-256" |}
           false ["sign"];
         JoseJWE.ImportKey "raw" (map Z.of_nat (seq 17 16))
           {| Alg.name := "AES-CBC"; Alg.length := 128; Alg.hash := EmptyString |}
           false ["encrypt"]] ++ rest) /\
  Demo.run (Demo.jwe Demo.A128CBC_HS256) Demo.key16 =
    (Rejected "encryptPlaintext: incorrect cek length",
     [JoseJWE.GetRandomValues (repeat 0 16); JoseJWE.ExportKey "raw" Demo.key16]).
Proof.
  split.
  - destruct (@C3_cek_split bytes Demo.utils_le Demo.host Demo.webcrypto
                (Demo.jwe Demo.A128CBC_HS256) Demo.key32 "hello" []
                eq_refl eq_refl eq_refl Demo.key32 eq_refl)
      as [Hsplit _].
    + vm_compute. discriminate.
    + vm_compute. discriminate.
    + destruct Hsplit as (_ & _ & _ & _ & rest & Hlog & _).
      * reflexivity.
      * exists rest. exact Hlog.
  - destruct (@C3_cek_split bytes Demo.utils_le Demo.host Demo.webcrypto
                (Demo.jwe Demo.A128CBC_HS256) Demo.key16 "hello" []
                eq_refl eq_refl eq_refl Demo.key16 eq_refl)
      as [_ Hreject].
    + vm_compute. discriminate.
    + vm_compute. discriminate.
    + apply Hreject. vm_compute. discriminate.
Defined.



(** C7 on an IV of three bytes, a tag of 100 bits and a truncation to 100 bits. *)
Lemma C7_validation_is_eager_witness :
  Demo.run (Demo.jwe_with_iv Demo.A128GCM [1; 2; 3]) Demo.key16 =
    (Rejected "encryptPlaintext: invalid IV length", []) /\
  Demo.run (Demo.jwe (Demo.gcm 100)) Demo.key16 =
    (Rejected "encryptPlaintext: invalid tag_length",
     [JoseJWE.GetRandomValues (repeat 0 12)]) /\
  Demo.run (Demo.jwe (Demo.cbc_hs 100)) Demo.key32 =
    (Rejected "encryptPlaintext: invalid truncated HMAC length",
     [JoseJWE.GetRandomValues (repeat 0 16)]).
Proof.
  split; [|split].
  - apply (@C7_validation_is_eager bytes Demo.utils_le Demo.host Demo.webcrypto
             (Demo.jwe_with_iv Demo.A128GCM [1; 2; 3]) (Resolved Demo.key16)
             "hello" []).
    vm_compute. discriminate.
  - destruct (@C7_validation_is_eager bytes Demo.utils_le Demo.host Demo.webcrypto
                (Demo.jwe (Demo.gcm 100)) (Resolved Demo.key16) "hello" [])
      as (_ & Htag & _ & _).
    destruct Htag as [_ Hmessage].
    + reflexivity.
    + vm_compute. discriminate.
    + apply Hmessage. reflexivity.
  - destruct (@C7_validation_is_eager bytes Demo.utils_le Demo.host Demo.webcrypto
                (Demo.jwe (Demo.cbc_hs 100)) (Resolved Demo.key32) "hello" [])
      as (_ & _ & Htruncated & _).
    destruct Htruncated as [_ Hmessage].
    + reflexivity.
    + vm_compute. discriminate.
    + apply Hmessage. reflexivity.
Defined.


(** C10 on runs without a preset CEK, with one, and with a rejected one. *)
Lemma C10_presetCEK_ignored_when_direct_witness :
  Demo.run_encrypter "dir" None = Demo.run_encrypter "dir" (Some (Resolved Demo.key32)) /\
  Demo.run_encrypter "dir" None = Demo.run_encrypter "dir" (Some (Rejected "no key")).
Proof.
  split.
  - exact (@C10_presetCEK_ignored_when_direct bytes Demo.utils_le Demo.host
             (Demo.cryptographer "dir") Demo.encrypter [1; 2; 3]
             None (Some (Resolved Demo.key32)) [] eq_refl).
  - exact (@C10_presetCEK_ignored_when_direct bytes Demo.utils_le Demo.host
             (Demo.cryptographer "dir") Demo.encrypter [1; 2; 3]
             None (Some (Rejected "no key")) [] eq_refl).
Defined.


(** C9 on a run of each routine, with base64url as encoder. *)
Lemma C9_compact_serialization_witness :
  periods (match fst (Demo.run_encrypter "RSA-OAEP" None) with
           | Resolved s => s
           | _ => EmptyString
           end) = 4%nat /\
  periods (match fst (@JoseJWE.encrypt bytes Demo.utils_le Demo.host Demo.webcrypto
                        (Demo.jwe Demo.A128GCM) (Resolved Demo.key16) "hello" []) with
           | Resolved s => s
           | _ => EmptyString
           end) = 4%nat.
Proof.
  destruct (@C9_compact_serialization bytes Demo.utils_le Demo.host Demo.webcrypto
              (Demo.cryptographer "RSA-OAEP")) as [Henc Hjwe].
  split.
  - destruct (Henc Demo.encrypter [1; 2; 3] None [] _ eq_refl)
      as (encryptedCek & data & _ & Hheader & _ & _ & _ & _ & Hperiods).
    apply Hperiods.
    + exact base64url_no_period.
    + rewrite Hheader. apply base64url_no_period.
  - destruct (Hjwe (Demo.jwe Demo.A128GCM) (Resolved Demo.key16) "hello" [] _ eq_refl)
      as (cek_promise & log1 & log2 & encrypted_cek & data & _ & _ & _ & Hheader & _
          & Hperiods).
    apply Hperiods.
    + exact base64url_no_period.
    + rewrite Hheader. apply base64url_no_period.
Defined.

Lemma digit_in_alphabet (i : Z) :
  In (Demo.digit i) (list_ascii_of_string Demo.alphabet).
Proof.
  unfold Demo.digit. generalize (Z.to_nat i) as n. intros n.
  do 64 (destruct n as [|n];
         [cbn; repeat (first [left; reflexivity | right])|]).
  cbn. left. reflexivity.
Qed.

Lemma base64url_alphabet (b : bytes) (c : ascii) :
  In c (list_ascii_of_string (Demo.base64url b)) ->
  In c (list_ascii_of_string Demo.alphabet).
Proof.
  assert (Hn : forall (n : nat) (l : bytes),
             (List.length l <= n)%nat ->
             In c (list_ascii_of_string (Demo.base64url l)) ->
             In c (list_ascii_of_string Demo.alphabet)).
  { induction n as [|n IH]; intros l Hl;
      destruct l as [|x [|y [|z t]]];
      cbn [Demo.base64url list_ascii_of_string In]; intros Hin;
      cbn [List.length] in Hl; try lia; split_in;
      try (subst c; apply digit_in_alphabet).
    apply (IH t); [lia|exact Hin]. }
  apply (Hn (List.length b)). apply Nat.le_refl.
Qed.

(** C4 on ["hello"]: under [A128GCM] the one call after [createIV] is the
    AEAD call with the bytes of the encoded header as [additionalData];
    under [A128CBC-HS256] the MAC call is made over a buffer that begins
    with the bytes of the encoded header; these bytes are not those of the
    JSON text. *)
Lemma C4_aad_is_the_encoded_header_witness :
  snd (Demo.run (Demo.jwe Demo.A128GCM) Demo.key16) =
    [JoseJWE.GetRandomValues (repeat 0 12);
     JoseJWE.Encrypt
       {| enc_name := "AES-GCM";
          enc_iv := repeat 42 12;
          additionalData := Some (Demo.char_codes Demo.segment);
          tagLength := Some 128 |}
       Demo.key16 (Demo.char_codes "hello")] /\
  (exists calls,
      snd (Demo.run (Demo.jwe Demo.A128CBC_HS256) Demo.key32) =
        [JoseJWE.GetRandomValues (repeat 0 16)] ++ calls /\
      In (JoseJWE.Sign
            {| Alg.name := "HMAC"; Alg.length := 0; Alg.hash := "SHA-256" |}
            (map Z.of_nat (seq 1 16))
            (Demo.char_codes
               "eyJhbGciOiJSU0EtT0FFUCIsImVuYyI6IkExMjhDQkMtSFMyNTYifQ" ++
             repeat 42 16 ++ [121; 116; 125; 125; 126] ++
             [0; 0; 0; 0; 0; 0; 1; 176])) calls) /\
  Demo.char_codes Demo.segment <> Demo.char_codes Demo.json.
Proof.
  destruct (@C4_aad_is_the_encoded_header bytes Demo.utils_le Demo.host
              Demo.webcrypto (Demo.cryptographer "dir")) as (Hjwe & _ & Hnever).
  split; [|split].
  - destruct (Hjwe (Demo.jwe Demo.A128GCM) (Resolved Demo.key16) "hello" [])
      as (calls & Hlog & Haead & _).
    destruct (Haead Demo.key16) as [Hcalls _].
    + reflexivity.
    + reflexivity.
    + reflexivity.
    + reflexivity.
    + unfold Demo.run. rewrite Hlog, Hcalls. reflexivity.
  - destruct (Hjwe (Demo.jwe Demo.A128CBC_HS256) (Resolved Demo.key32) "hello" [])
      as (calls & Hlog & _ & Hmac & _).
    exists calls. split; [exact Hlog|].
    apply (Hmac Demo.key32 Demo.key32 (map Z.of_nat (seq 1 16))
             (map Z.of_nat (seq 17 16)) [121; 116; 125; 125; 126]);
      reflexivity.
  - destruct Hnever as [Hnever _].
    + exact char_codes_inj.
    + intros s c. apply base64url_alphabet.
    + intros o. eexists. reflexivity.
    + exact (Hnever (Demo.jwe Demo.A128GCM)).
Defined.

(** * Further properties of the two routines *)

(** ** [ArrayBuffer.prototype.slice] at any index *)

Lemma relative_index_range (len k : Z) :
  0 <= len -> 0 <= relative_index len k <= len.
Proof.
  intros Hlen. unfold relative_index.
  destruct (k <? 0) eqn:E; [apply Z.ltb_lt in E|apply Z.ltb_ge in E]; lia.
Qed.

(** [b.slice(0, k)] and [b.slice(k)] cut [b] at the same place, wherever [k]
    lies. *)
Lemma slice_cut (b : bytes) (k : Z) :
  let p := Z.to_nat (relative_index (byteLength b) k) in
  slice b 0 k = firstn p b /\ slice_from b k = skipn p b.
Proof.
  intros p. subst p.
  pose proof (byteLength_nonneg b) as Hlen.
  pose proof (relative_index_range (byteLength b) k Hlen) as Hp.
  unfold slice_from, slice.
  set (p := relative_index (byteLength b) k) in *.
  assert (H0 : relative_index (byteLength b) 0 = 0).
  { unfold relative_index. cbn. lia. }
  assert (Hl : relative_index (byteLength b) (byteLength b) = byteLength b).
  { unfold relative_index. destruct (byteLength b <? 0) eqn:E; [apply Z.ltb_lt in E|]; lia. }
  rewrite H0, Hl. split.
  - cbn [Z.to_nat skipn]. rewrite Z.sub_0_r, Z.max_l by lia. reflexivity.
  - rewrite Z.max_l by lia. apply firstn_all2.
    rewrite length_skipn. unfold byteLength in *. lia.
Qed.

(** ** [encryptCek] *)

Section EncryptCek.
Context {CryptoKey : Type} {W : WebCrypto CryptoKey}.
Import JoseJWE.

Variables (this : This CryptoKey) (key_promise cek_promise : Promise CryptoKey)
          (log : list (Call CryptoKey)).

Let algorithm := KeyEncryption.id (key_encryption this).

(** X1: [encryptCek] calls [wrapKey] exactly when both promises resolve, with
    the CEK as the key to wrap, the recipient key as the wrapping key and
    [key_encryption.id] as algorithm, and hands on its answer; otherwise it
    calls nothing and does not resolve, a single rejection being passed on
    unchanged. *)
Theorem encryptCek_wraps_iff_both_resolve :
  (forall key cek,
      key_promise = Resolved key -> cek_promise = Resolved cek ->
      encryptCek this key_promise cek_promise log =
        (subtle_wrapKey "raw" cek key algorithm,
         log ++ [WrapKey "raw" cek key algorithm])) /\
  ((forall key, key_promise <> Resolved key) \/
   (forall cek, cek_promise <> Resolved cek) ->
   snd (encryptCek this key_promise cek_promise log) = log /\
   forall wrapped, fst (encryptCek this key_promise cek_promise log) <> Resolved wrapped) /\
  (forall reason,
      key_promise = Rejected reason -> (forall r, cek_promise <> Rejected r) ->
      fst (encryptCek this key_promise cek_promise log) = Rejected reason) /\
  (forall reason,
      cek_promise = Rejected reason -> (forall r, key_promise <> Rejected r) ->
      fst (encryptCek this key_promise cek_promise log) = Rejected reason).
Proof.
  unfold encryptCek. fold algorithm.
  split; [|split; [|split]].
  - intros key cek -> ->. reflexivity.
  - intros [Hkey|Hcek]; destruct key_promise as [key|r1|];
      destruct cek_promise as [cek|r2|]; cbn [Promise_all then_ ret fst snd];
      try (exfalso; apply (Hkey key); reflexivity);
      try (exfalso; apply (Hcek cek); reflexivity);
      (split; [reflexivity|intros wrapped; discriminate]).
  - intros reason -> _. destruct cek_promise; reflexivity.
  - intros reason -> Hkey. destruct key_promise as [key|r|]; try reflexivity.
    exfalso. apply (Hkey r). reflexivity.
Qed.
End EncryptCek.

(** ** [encryptPlaintext]: what a resolved call certifies *)

Section ResolvedOnlyIf.
Context {CryptoKey : Type} {U : JoseUtils} {H : Host} {W : WebCrypto CryptoKey}.
Import JoseJWE.

Variables (this : This CryptoKey) (cek_promise : Promise CryptoKey)
          (plain_text : string) (log : list (Call CryptoKey)).

Let config := content_encryption this.
Let auth := ContentEncryption.auth config.
Let IV := fst (createIV this log).
Let AAD := arrayFromString (protected_header this).
Let plaintext := arrayFromString plain_text.

(** X2: [encryptPlaintext] resolves only when every test passed and every
    primitive resolved: the IV has the configured length, the CEK promise
    resolved, and either (AEAD) the tag length is a multiple of 8 and the
    primitive's output is the resolved ciphertext followed by the resolved
    tag, or (composite) the truncation is a multiple of 8, the exported CEK
    has the configured length, both imports resolved, the resolved
    ciphertext is what the cipher returned under the imported encryption
    key, and the tag is cut from the MAC the imported MAC key gave over
    that same ciphertext. *)
Theorem encryptPlaintext_resolves_only_if (data : Data) :
  fst (encryptPlaintext this cek_promise plain_text log) = Resolved data ->
  byteLength IV = Z.of_nat (ContentEncryption.iv_length config) /\
  header data = protected_header this /\
  iv data = IV /\
  exists cek,
    cek_promise = Resolved cek /\
    ((Auth.aead auth = true /\
      Auth.tag_length auth mod 8 = 0 /\
      exists combined,
        subtle_encrypt (aead_params this IV AAD) cek plaintext = Resolved combined /\
        cipher data ++ tag data = combined) \/
     (Auth.aead auth = false /\
      Auth.truncated_length auth mod 8 = 0 /\
      exists cek_bytes mac_key enc_key mac,
        subtle_exportKey "raw" cek = Resolved cek_bytes /\
        byteLength cek_bytes * 8 =
          Alg.length (ContentEncryption.id config) + Auth.key_size auth /\
        subtle_importKey "raw"
          (slice cek_bytes 0 (div_to_integer (Auth.key_size auth) 8))
          (Auth.id auth) false ["sign"] = Resolved mac_key /\
        subtle_importKey "raw"
          (slice_from cek_bytes (div_to_integer (Auth.key_size auth) 8))
          (ContentEncryption.id config) false ["encrypt"] = Resolved enc_key /\
        subtle_encrypt (cipher_params this IV) enc_key plaintext
        = Resolved (cipher data) /\
        subtle_sign (Auth.id auth) mac_key (mac_input AAD IV (cipher data))
        = Resolved mac /\
        tag data = slice mac 0 (div_to_integer (Auth.truncated_length auth) 8))).
Proof.
  subst IV. unfold encryptPlaintext, bind.
  destruct (createIV this log) as [iv0 log1]. cbn [fst snd].
  fold config. fold auth. fold AAD plaintext.
  destruct (negb (byteLength iv0 =? _)) eqn:Eiv; [discriminate|].
  apply negb_false_iff, Z.eqb_eq in Eiv.
  destruct (Auth.aead auth) eqn:Haead.
  - destruct (not_multiple_of (Auth.tag_length auth) 8) eqn:Etag; [discriminate|].
    apply multiple_of_spec in Etag.
    destruct cek_promise as [cek|r|]; cbn [then_ ret fst]; try discriminate.
    unfold call.
    destruct (subtle_encrypt _ cek plaintext) as [combined|r|] eqn:Eenc;
      cbn [then_ ret fst]; try discriminate.
    intros Hres. injection Hres as <-. cbn [header iv cipher tag].
    repeat (split; [first [exact Eiv | reflexivity]|]).
    exists cek. split; [reflexivity|]. left.
    repeat (split; [first [exact Etag | reflexivity]|]).
    exists combined. split; [first [exact Eenc | reflexivity]|].
    destruct (slice_cut combined
                (byteLength combined - div_to_integer (Auth.tag_length auth) 8))
      as [-> ->].
    apply firstn_skipn.
  - destruct (not_multiple_of (Auth.truncated_length auth) 8) eqn:Etag; [discriminate|].
    apply multiple_of_spec in Etag.
    destruct cek_promise as [cek|r|]; cbn [then_ ret Promise_all fst snd];
      try discriminate.
    unfold call.
    destruct (subtle_exportKey "raw" cek) as [cek_bytes|r|] eqn:Eexp;
      cbn [then_ ret Promise_all fst snd]; try discriminate.
    destruct (negb (byteLength cek_bytes * 8 =? _)) eqn:Elen;
      cbn [then_ ret Promise_all fst snd]; try discriminate.
    apply negb_false_iff, Z.eqb_eq in Elen.
    destruct (subtle_importKey "raw" _ (Auth.id auth) false ["sign"])
      as [mac_key|r1|] eqn:Emac;
      destruct (subtle_importKey "raw" _ _ false ["encrypt"])
        as [enc_key|r2|] eqn:Eenc;
      cbn [then_ ret Promise_all fst snd]; try discriminate;
      destruct (subtle_encrypt _ enc_key plaintext) as [ct|r3|] eqn:Ecipher;
      cbn [then_ ret Promise_all fst snd]; try discriminate.
    destruct (subtle_sign (Auth.id auth) mac_key _) as [mac|r4|] eqn:Esign;
      cbn [then_ ret Promise_all fst snd]; try discriminate.
    intros Hres. injection Hres as <-. cbn [header iv cipher tag].
    repeat (split; [first [exact Eiv | reflexivity]|]).
    exists cek. split; [reflexivity|]. right.
    repeat (split; [first [exact Etag | reflexivity]|]).
    exists cek_bytes, mac_key, enc_key, mac.
    repeat (split; [first [assumption | reflexivity]|]). reflexivity.
Qed.
End ResolvedOnlyIf.

(** ** The AEAD path when the output is short, and its errors *)

Lemma byteLength_firstn (b : bytes) (p : Z) :
  0 <= p <= byteLength b -> byteLength (firstn (Z.to_nat p) b) = p.
Proof.
  intros Hp. unfold byteLength in *. rewrite length_firstn. lia.
Qed.

Lemma byteLength_skipn (b : bytes) (p : Z) :
  0 <= p <= byteLength b -> byteLength (skipn (Z.to_nat p) b) = byteLength b - p.
Proof.
  intros Hp. unfold byteLength in *. rewrite length_skipn. lia.
Qed.

Section AeadEdges.
Context {CryptoKey : Type} {U : JoseUtils} {H : Host} {W : WebCrypto CryptoKey}.
Import JoseJWE.

Variables (this : This CryptoKey) (plain_text : string)
          (log : list (Call CryptoKey)).

Let config := content_encryption this.
Let auth := ContentEncryption.auth config.
Let tag_length := Auth.tag_length auth.
Let IV := fst (createIV this log).
Let after_iv := snd (createIV this log).
Let AAD := arrayFromString (protected_header this).
Let plaintext := arrayFromString plain_text.

Hypothesis Hiv : byteLength IV = Z.of_nat (ContentEncryption.iv_length config).
Hypothesis Haead : Auth.aead auth = true.
Hypothesis Htag : tag_length mod 8 = 0.

(** X3: on the AEAD path with valid parameters, [crypto.subtle.encrypt] is
    the only primitive called, once when the CEK promise resolves and not at
    all otherwise, and a rejection of the CEK promise or of the primitive is
    passed on unchanged. *)
Theorem aead_errors_pass_unchanged (cek_promise : Promise CryptoKey) :
  (forall reason,
      cek_promise = Rejected reason ->
      encryptPlaintext this cek_promise plain_text log = (Rejected reason, after_iv)) /\
  (cek_promise = Pending ->
   encryptPlaintext this cek_promise plain_text log = (Pending, after_iv)) /\
  (forall cek,
      cek_promise = Resolved cek ->
      snd (encryptPlaintext this cek_promise plain_text log) =
        after_iv ++ [Encrypt (aead_params this IV AAD) cek plaintext] /\
      (forall reason,
          subtle_encrypt (aead_params this IV AAD) cek plaintext = Rejected reason ->
          fst (encryptPlaintext this cek_promise plain_text log) = Rejected reason) /\
      (subtle_encrypt (aead_params this IV AAD) cek plaintext = Pending ->
       fst (encryptPlaintext this cek_promise plain_text log) = Pending)).
Proof.
  split; [|split].
  - intros reason ->. subst IV after_iv. unfold encryptPlaintext, bind.
    destruct (createIV this log) as [iv0 log1]. cbn [fst snd] in *.
    fold config auth tag_length.
    apply Z.eqb_eq in Hiv. rewrite Hiv. cbn [negb].
    rewrite Haead. apply multiple_of_spec in Htag. rewrite Htag. reflexivity.
  - intros ->. subst IV after_iv. unfold encryptPlaintext, bind.
    destruct (createIV this log) as [iv0 log1]. cbn [fst snd] in *.
    fold config auth tag_length.
    apply Z.eqb_eq in Hiv. rewrite Hiv. cbn [negb].
    rewrite Haead. apply multiple_of_spec in Htag. rewrite Htag. reflexivity.
  - intros cek ->.
    rewrite (aead_run this cek plain_text log Hiv Haead Htag).
    fold IV AAD plaintext after_iv.
    destruct (subtle_encrypt (aead_params this IV AAD) cek plaintext) as [ct|r|];
      cbn [then_ ret fst snd].
    + split; [reflexivity|]. split; [intros reason Hr|intros Hp]; discriminate.
    + split; [reflexivity|].
      split; [intros reason Hr; injection Hr as ->; reflexivity|intros Hp; discriminate].
    + split; [reflexivity|]. split; [intros reason Hr; discriminate|reflexivity].
Qed.

Variables (cek : CryptoKey) (combined : bytes).
Hypothesis Hencrypt :
  subtle_encrypt (aead_params this IV AAD) cek plaintext = Resolved combined.
Hypothesis Hnonneg : 0 <= tag_length.

(** X4: the AEAD split raises no error on an output of any length and
    loses no byte. With [n] bytes of output and a tag of [k] bytes: for
    [k <= n] the tag is the last [k] bytes; for [n < k] the negative offset
    [n - k] counts from the end, so that the ciphertext is the first
    [max (2n - k) 0] bytes and the tag the rest. *)
Theorem aead_split_at_any_length :
  let n := byteLength combined in
  let k := tag_length / 8 in
  exists data,
    fst (encryptPlaintext this (Resolved cek) plain_text log) = Resolved data /\
    cipher data ++ tag data = combined /\
    (k <= n -> byteLength (cipher data) = n - k /\ byteLength (tag data) = k) /\
    (n < k -> byteLength (cipher data) = Z.max (2 * n - k) 0 /\
              byteLength (tag data) = Z.min n (k - n)) /\
    (2 * n <= k -> cipher data = [] /\ tag data = combined).
Proof.
  intros n k. subst n k.
  rewrite (aead_run this cek plain_text log Hiv Haead Htag).
  fold IV AAD plaintext tag_length. rewrite Hencrypt. cbn [then_ ret fst].
  eexists. split; [reflexivity|]. cbn [cipher tag].
  rewrite div_to_integer_nonneg by exact Hnonneg.
  set (n := byteLength combined). set (k := tag_length / 8).
  pose proof (byteLength_nonneg combined) as Hn. fold n in Hn.
  assert (Hk : 0 <= k) by (apply Z.div_pos; lia).
  change (Auth.tag_length (ContentEncryption.auth (content_encryption this)) / 8)
    with k.
  destruct (slice_cut combined (n - k)) as [Hc Ht]. rewrite Hc, Ht. fold n.
  pose proof (relative_index_range n (n - k) Hn) as Hp.
  assert (Hrel : relative_index n (n - k) =
                 if n - k <? 0 then Z.max (2 * n - k) 0 else n - k).
  { unfold relative_index.
    destruct (n - k <? 0) eqn:E; [apply Z.ltb_lt in E|apply Z.ltb_ge in E]; lia. }
  set (p := relative_index n (n - k)) in *.
  split; [apply firstn_skipn|].
  rewrite (byteLength_firstn combined p), (byteLength_skipn combined p) by exact Hp.
  fold n.
  split; [|split].
  - intros Hle. destruct (n - k <? 0) eqn:E;
      [apply Z.ltb_lt in E|apply Z.ltb_ge in E]; lia.
  - intros Hlt. destruct (n - k <? 0) eqn:E;
      [apply Z.ltb_lt in E|apply Z.ltb_ge in E]; lia.
  - intros Hle.
    assert (Hp0 : p = 0).
    { destruct (n - k <? 0) eqn:E;
        [apply Z.ltb_lt in E|apply Z.ltb_ge in E]; lia. }
    rewrite Hp0. split; reflexivity.
Qed.
End AeadEdges.

(** ** The composite path: errors at each stage, and the tag at any length *)

Section CompositeEdges.
Context {CryptoKey : Type} {U : JoseUtils} {H : Host} {W : WebCrypto CryptoKey}.
Import JoseJWE.

Variables (this : This CryptoKey) (cek : CryptoKey) (plain_text : string)
          (log : list (Call CryptoKey)).

Let config := content_encryption this.
Let auth := ContentEncryption.auth config.
Let IV := fst (createIV this log).
Let after_iv := snd (createIV this log).
Let AAD := arrayFromString (protected_header this).
Let plaintext := arrayFromString plain_text.
Let truncated_length := Auth.truncated_length auth.

Hypothesis Hiv : byteLength IV = Z.of_nat (ContentEncryption.iv_length config).
Hypothesis Haead : Auth.aead auth = false.
Hypothesis Htrunc : truncated_length mod 8 = 0.

(** The composite path when the CEK cannot be exported. *)
Lemma composite_no_export (outcome : Promise bytes) :
  subtle_exportKey "raw" cek = outcome ->
  (forall cek_bytes, outcome <> Resolved cek_bytes) ->
  encryptPlaintext this (Resolved cek) plain_text log =
    (match outcome with
     | Rejected reason => Rejected reason
     | _ => Pending
     end,
     after_iv ++ [ExportKey "raw" cek]).
Proof.
  intros Hexport Hnot. subst IV after_iv. unfold encryptPlaintext, bind.
  destruct (createIV this log) as [iv0 log1]. cbn [fst snd] in *.
  fold config auth.
  apply Z.eqb_eq in Hiv. rewrite Hiv. cbn [negb].
  rewrite Haead. apply multiple_of_spec in Htrunc.
  fold truncated_length. rewrite Htrunc.
  cbn [then_]. unfold call at 1. rewrite Hexport.
  destruct outcome as [cek_bytes|r|].
  - exfalso. apply (Hnot cek_bytes). reflexivity.
  - reflexivity.
  - reflexivity.
Qed.

Variable cek_bytes : bytes.

Let mac_key_bytes := slice cek_bytes 0 (div_to_integer (Auth.key_size auth) 8).
Let enc_key_bytes := slice_from cek_bytes (div_to_integer (Auth.key_size auth) 8).
Let import_mac := subtle_importKey "raw" mac_key_bytes (Auth.id auth) false ["sign"].
Let import_enc :=
  subtle_importKey "raw" enc_key_bytes (ContentEncryption.id config) false ["encrypt"].
Let imports : list (Call CryptoKey) :=
  [ExportKey "raw" cek;
   ImportKey "raw" mac_key_bytes (Auth.id auth) false ["sign"];
   ImportKey "raw" enc_key_bytes (ContentEncryption.id config) false ["encrypt"]].

(** X5: on the composite path a failure of one primitive is passed on
    unchanged and stops the calls that depend on it, and only those: after a
    failed export nothing is imported; after a failed import of the
    encryption key neither cipher nor MAC is called; after a failed cipher
    the MAC is not called; but after a failed import of the MAC key the
    cipher is still called, and only the MAC is left out. *)
Theorem composite_errors_pass_unchanged :
  (forall reason,
      subtle_exportKey "raw" cek = Rejected reason ->
      encryptPlaintext this (Resolved cek) plain_text log =
        (Rejected reason, after_iv ++ [ExportKey "raw" cek])) /\
  (subtle_exportKey "raw" cek = Resolved cek_bytes ->
   byteLength cek_bytes * 8 =
     Alg.length (ContentEncryption.id config) + Auth.key_size auth ->
   (forall reason,
       import_enc = Rejected reason -> (forall r, import_mac <> Rejected r) ->
       encryptPlaintext this (Resolved cek) plain_text log =
         (Rejected reason, after_iv ++ imports)) /\
   (forall reason enc_key,
       import_enc = Resolved enc_key -> (forall r, import_mac <> Rejected r) ->
       subtle_encrypt (cipher_params this IV) enc_key plaintext = Rejected reason ->
       encryptPlaintext this (Resolved cek) plain_text log =
         (Rejected reason,
          after_iv ++ imports ++ [Encrypt (cipher_params this IV) enc_key plaintext])) /\
   (forall reason enc_key,
       import_mac = Rejected reason -> import_enc = Resolved enc_key ->
       (forall r, subtle_encrypt (cipher_params this IV) enc_key plaintext
                  <> Rejected r) ->
       encryptPlaintext this (Resolved cek) plain_text log =
         (Rejected reason,
          after_iv ++ imports ++ [Encrypt (cipher_params this IV) enc_key plaintext])) /\
   (forall reason mac_key enc_key cipher_text,
       import_mac = Resolved mac_key -> import_enc = Resolved enc_key ->
       subtle_encrypt (cipher_params this IV) enc_key plaintext = Resolved cipher_text ->
       subtle_sign (Auth.id auth) mac_key (mac_input AAD IV cipher_text)
       = Rejected reason ->
       encryptPlaintext this (Resolved cek) plain_text log =
         (Rejected reason,
          after_iv ++ imports ++
            [Encrypt (cipher_params this IV) enc_key plaintext;
             Sign (Auth.id auth) mac_key (mac_input AAD IV cipher_text)]))).
Proof.
  split.
  - intros reason Hexport.
    rewrite (composite_no_export (Rejected reason) Hexport); [reflexivity|].
    intros b. discriminate.
  - intros Hexport Hlen.
    rewrite (composite_run this cek plain_text log Hiv Haead Htrunc cek_bytes Hexport).
    apply Z.eqb_eq in Hlen. fold config auth. rewrite Hlen. cbn [negb].
    fold truncated_length mac_key_bytes enc_key_bytes import_mac import_enc
         IV AAD plaintext after_iv.
    unfold bind, ret, call, imports.
    split; [|split; [|split]].
    + intros reason Henc Hmac. rewrite Henc.
      destruct import_mac as [mac_key|r|]; cbn [then_ Promise_all fst snd ret];
        first [reflexivity | exfalso; apply (Hmac r); reflexivity].
    + intros reason enc_key Henc Hmac Hcipher. rewrite Henc. cbn [then_].
      rewrite Hcipher.
      destruct import_mac as [mac_key|r|]; cbn [then_ Promise_all fst snd ret];
        rewrite <- ?app_assoc;
        first [reflexivity | exfalso; apply (Hmac r); reflexivity].
    + intros reason enc_key Hmac Henc Hcipher. rewrite Henc, Hmac. cbn [then_].
      destruct (subtle_encrypt (cipher_params this IV) enc_key plaintext)
        as [ct|r|]; cbn [then_ Promise_all fst snd ret];
        rewrite <- ?app_assoc;
        first [reflexivity | exfalso; apply (Hcipher r); reflexivity].
    + intros reason mac_key enc_key cipher_text Hmac Henc Hcipher Hsign.
      rewrite Henc, Hmac. cbn [then_]. rewrite Hcipher.
      cbn [then_ Promise_all fst snd]. rewrite Hsign.
      cbn [then_ Promise_all fst snd ret]. rewrite <- ?app_assoc. reflexivity.
Qed.

Variables (mac_key enc_key : CryptoKey) (cipher_text mac : bytes).
Hypothesis Hexport : subtle_exportKey "raw" cek = Resolved cek_bytes.
Hypothesis Hlength :
  byteLength cek_bytes * 8 =
    Alg.length (ContentEncryption.id config) + Auth.key_size auth.
Hypothesis Himport_mac : import_mac = Resolved mac_key.
Hypothesis Himport_enc : import_enc = Resolved enc_key.
Hypothesis Hcipher :
  subtle_encrypt (cipher_params this IV) enc_key plaintext = Resolved cipher_text.
Hypothesis Hsign :
  subtle_sign (Auth.id auth) mac_key (mac_input AAD IV cipher_text) = Resolved mac.
Hypothesis Hnonneg : 0 <= truncated_length.

(** X6: the truncation never fails: for a MAC output of any length the tag
    is its first [min (truncated_length/8) (length of the MAC)] bytes; a MAC
    shorter than the configured truncation is used whole, and a truncation
    of 0 bits passes the test of line 259 and gives the empty tag. *)
Theorem composite_tag_at_any_length :
  exists data,
    fst (encryptPlaintext this (Resolved cek) plain_text log) = Resolved data /\
    cipher data = cipher_text /\
    tag data = firstn (Z.to_nat (truncated_length / 8)) mac /\
    byteLength (tag data) = Z.min (truncated_length / 8) (byteLength mac) /\
    (byteLength mac <= truncated_length / 8 -> tag data = mac) /\
    (truncated_length = 0 -> tag data = []).
Proof.
  rewrite (composite_success this cek plain_text log Hiv Haead Htrunc cek_bytes
             Hexport mac_key enc_key cipher_text mac Hlength
             Himport_mac Himport_enc Hcipher Hsign).
  cbn [fst]. eexists. split; [reflexivity|]. cbn [cipher tag].
  split; [reflexivity|].
  fold config auth truncated_length.
  rewrite div_to_integer_nonneg by exact Hnonneg.
  assert (Hk : 0 <= truncated_length / 8) by (apply Z.div_pos; lia).
  rewrite slice_prefix by exact Hk.
  pose proof (byteLength_nonneg mac) as Hm.
  split; [reflexivity|]. split; [|split].
  - unfold byteLength in *. rewrite length_firstn. lia.
  - intros Hshort. apply firstn_all2. unfold byteLength in *. lia.
  - intros H0. rewrite H0. reflexivity.
Qed.
End CompositeEdges.

(** ** The MAC input determines its parts *)

Lemma app_same_length {A : Type} (a c b d : list A) :
  List.length a = List.length c -> a ++ b = c ++ d -> a = c /\ b = d.
Proof.
  revert c. induction a as [|x a IH]; intros [|y c] Hlen Heq;
    cbn [List.length app] in *; try discriminate.
  - split; [reflexivity|exact Heq].
  - injection Heq as -> Heq. injection Hlen as Hlen.
    destruct (IH c Hlen Heq) as [-> ->]. split; reflexivity.
Qed.

Lemma big_endian_8_inj (n m : Z) :
  0 <= n < 2 ^ 32 -> 0 <= m < 2 ^ 32 ->
  big_endian 8 n = big_endian 8 m -> n = m.
Proof.
  intros Hn Hm Heq. cbv -[Z.div Z.modulo] in Heq.
  injection Heq as _ _ _ _ H3 H2 H1 H0.
  rewrite !Z.div_1_r in H0.
  assert (Hsplit : forall x, 0 <= x < 2 ^ 32 ->
            x = x / 16777216 mod 256 * 16777216 + x / 65536 mod 256 * 65536
                + x / 256 mod 256 * 256 + x mod 256).
  { intros x Hx. Z.div_mod_to_equations. lia. }
  rewrite (Hsplit n Hn), (Hsplit m Hm), H3, H2, H1, H0. reflexivity.
Qed.

Section MacInput.
Context {U : JoseUtils}.

(** The AL field when [arrayFromInt32] answers with the least significant
    byte first. *)
Lemma al_bigendian_little_endian_helper (aad : bytes) :
  8 * byteLength aad < 2 ^ 32 ->
  arrayFromInt32 (byteLength aad * 8) = little_endian 4 (byteLength aad * 8) ->
  JoseJWE.al_bigendian aad = big_endian 8 (byteLength aad * 8).
Proof.
  intros Hsmall Hle. rewrite al_bigendian_layout. cbv zeta. rewrite Hle.
  pose proof (byteLength_nonneg aad) as Hlen.
  apply reversed_little_endian. lia.
Qed.

(** X7: the buffer handed to the MAC determines its three parts. For AADs
    of less than 2^29 bytes, a helper [arrayFromInt32] that answers with the
    least significant byte first, and IVs of one length, two MAC inputs are
    equal only if AAD, IV and ciphertext are: no byte can move between the
    AAD and what follows it. *)
Theorem mac_input_determines_its_parts (aad1 iv1 ct1 aad2 iv2 ct2 : bytes) :
  8 * byteLength aad1 < 2 ^ 32 -> 8 * byteLength aad2 < 2 ^ 32 ->
  arrayFromInt32 (byteLength aad1 * 8) = little_endian 4 (byteLength aad1 * 8) ->
  arrayFromInt32 (byteLength aad2 * 8) = little_endian 4 (byteLength aad2 * 8) ->
  List.length iv1 = List.length iv2 ->
  JoseJWE.mac_input aad1 iv1 ct1 = JoseJWE.mac_input aad2 iv2 ct2 ->
  aad1 = aad2 /\ iv1 = iv2 /\ ct1 = ct2.
Proof.
  intros Hs1 Hs2 Hle1 Hle2 Hiv Heq.
  unfold JoseJWE.mac_input, arrayBufferConcat in Heq. cbn [List.concat] in Heq.
  rewrite !app_nil_r in Heq.
  assert (Hlen : List.length (aad1 ++ iv1 ++ ct1) = List.length (aad2 ++ iv2 ++ ct2)).
  { apply (f_equal (@List.length Z)) in Heq.
    rewrite !length_app, !al_bigendian_length in Heq. rewrite !length_app. lia. }
  rewrite !(app_assoc _ _ (JoseJWE.al_bigendian _)) in Heq.
  rewrite !(app_assoc aad1), !(app_assoc aad2) in Heq.
  rewrite !app_assoc in Hlen.
  destruct (app_same_length _ _ _ _ Hlen Heq) as [Hbody Hal].
  rewrite (al_bigendian_little_endian_helper aad1 Hs1 Hle1),
          (al_bigendian_little_endian_helper aad2 Hs2 Hle2) in Hal.
  pose proof (byteLength_nonneg aad1) as H1.
  pose proof (byteLength_nonneg aad2) as H2.
  apply big_endian_8_inj in Hal; [|lia|lia].
  assert (Haad : List.length aad1 = List.length aad2)
    by (unfold byteLength in Hal; lia).
  rewrite <- !app_assoc in Hbody.
  destruct (app_same_length _ _ _ _ Haad Hbody) as [-> Hrest].
  destruct (app_same_length _ _ _ _ Hiv Hrest) as [-> ->].
  repeat split.
Qed.
End MacInput.

(** ** [JoseJWE.prototype.encrypt] as a whole *)

Section WholeRoutine.
Context {CryptoKey : Type} {U : JoseUtils} {H : Host} {W : WebCrypto CryptoKey}.
Import JoseJWE.

Variables (this : This CryptoKey) (key_promise : Promise CryptoKey)
          (plain_text : string) (log : list (Call CryptoKey)).

Let cek_promise := fst (createCEK this ["encrypt"] log).
Let after_cek := snd (createCEK this ["encrypt"] log).
Let encrypted_cek := fst (encryptCek this key_promise cek_promise after_cek).
Let after_wrap := snd (encryptCek this key_promise cek_promise after_cek).
Let enc_promise := fst (encryptPlaintext this cek_promise plain_text after_wrap).

(** X8: [encrypt] is all or nothing, and the two branches do not wait for
    each other: it resolves exactly when the wrapped key and the content
    encryption both resolve, to the serialization of the two; its calls
    are those of [createCEK], [encryptCek] and [encryptPlaintext], logged in
    the order of the source text, and no other; so when the recipient key
    promise does not resolve,
    [wrapKey] is not called and the call does not resolve, but the content
    encryption is run all the same. *)
Theorem encrypt_all_or_nothing :
  snd (encrypt this key_promise plain_text log) =
    snd (encryptPlaintext this cek_promise plain_text after_wrap) /\
  (forall s,
      fst (encrypt this key_promise plain_text log) = Resolved s <->
      exists wrapped data,
        encrypted_cek = Resolved wrapped /\ enc_promise = Resolved data /\
        s = serialize wrapped data) /\
  ((forall key, key_promise <> Resolved key) ->
   after_wrap = after_cek /\
   forall s, fst (encrypt this key_promise plain_text log) <> Resolved s).
Proof.
  subst enc_promise after_wrap encrypted_cek after_cek cek_promise.
  unfold encrypt, bind.
  destruct (createCEK this ["encrypt"] log) as [cek_promise log1]. cbn [fst snd].
  assert (Hnone : (forall key, key_promise <> Resolved key) ->
            snd (encryptCek this key_promise cek_promise log1) = log1 /\
            forall w, fst (encryptCek this key_promise cek_promise log1) <> Resolved w).
  { intros Hkey. unfold encryptCek.
    destruct key_promise as [key|r|];
      [exfalso; apply (Hkey key); reflexivity| |];
      destruct cek_promise; cbn [Promise_all then_ ret fst snd];
      (split; [reflexivity|intros w; discriminate]). }
  destruct (encryptCek this key_promise cek_promise log1) as [wrapped log2].
  cbn [fst snd] in *.
  destruct (encryptPlaintext this cek_promise plain_text log2) as [enc log3].
  cbn [fst snd].
  split; [|split].
  - destruct wrapped; destruct enc; reflexivity.
  - intros s. split.
    + destruct wrapped as [w|r|]; destruct enc as [d|r'|];
        cbn [Promise_all then_ ret fst snd]; intros Hs; try discriminate.
      injection Hs as <-. exists w, d. repeat split.
    + intros (w & d & -> & -> & ->). reflexivity.
  - intros Hkey. destruct (Hnone Hkey) as [Hlog Hnot].
    split; [exact Hlog|].
    intros s. destruct wrapped as [w|r|]; destruct enc as [d|r'|];
      cbn [Promise_all then_ ret fst snd]; try discriminate.
    exfalso. apply (Hnot w). reflexivity.
Qed.
End WholeRoutine.

Section EndToEnd.
Context {CryptoKey : Type} {U : JoseUtils} {H : Host} {W : WebCrypto CryptoKey}.
Import JoseJWE.

Variables (this : This CryptoKey) (key cek : CryptoKey)
          (plain_text : string) (log : list (Call CryptoKey))
          (wrapped combined : bytes).

Let config := content_encryption this.
Let auth := ContentEncryption.auth config.
Let tag_length := Auth.tag_length auth.
Let zeros := new_Uint8Array (ContentEncryption.iv_length config).
Let IV := crypto_getRandomValues zeros.
Let AAD := arrayFromString (protected_header this).
Let plaintext := arrayFromString plain_text.
Let generate : Call CryptoKey :=
  GenerateKey (ContentEncryption.id config) true ["encrypt"].
Let wrap : Call CryptoKey :=
  WrapKey "raw" cek key (KeyEncryption.id (key_encryption this)).

Hypothesis Hown_iv : own_createIV this = None.
Hypothesis Hown_cek : own_createCEK this = None.
Hypothesis Hrandom : List.length IV = List.length zeros.
Hypothesis Haead : Auth.aead auth = true.
Hypothesis Htag : tag_length mod 8 = 0.
Hypothesis Hnonneg : 0 <= tag_length.
Hypothesis Hgenerate :
  subtle_generateKey (ContentEncryption.id config) true ["encrypt"] = Resolved cek.
Hypothesis Hwrap :
  subtle_wrapKey "raw" cek key (KeyEncryption.id (key_encryption this))
  = Resolved wrapped.
Hypothesis Hencrypt :
  subtle_encrypt (aead_params this IV AAD) cek plaintext = Resolved combined.
Hypothesis Hlong : tag_length / 8 <= byteLength combined.

(** X9: [encrypt] from end to end with the prototype's own [createIV] and
    [createCEK], in AEAD mode, when every primitive resolves: four calls,
    [generateKey] on the content algorithm, [wrapKey] of that very CEK under
    the recipient key, [getRandomValues] on [iv_length] zero bytes and
    [encrypt] under the same CEK with the random IV and the encoded header
    as AAD; the result is the five segments built from their answers. *)
Theorem encrypt_aead_end_to_end :
  let split := (List.length combined - Z.to_nat (tag_length / 8))%nat in
  encrypt this (Resolved key) plain_text log =
    (Resolved (protected_header this ++ "." ++
               Base64Url_encodeArrayBuffer wrapped ++ "." ++
               Base64Url_encodeArrayBuffer IV ++ "." ++
               Base64Url_encodeArrayBuffer (firstn split combined) ++ "." ++
               Base64Url_encodeArrayBuffer (skipn split combined))%string,
     log ++ [generate; wrap; GetRandomValues zeros;
             Encrypt (aead_params this IV AAD) cek plaintext]).
Proof.
  intros split.
  assert (Hiv_run : forall l, createIV this l = (IV, l ++ [GetRandomValues zeros])).
  { intros l. unfold createIV. rewrite Hown_iv. reflexivity. }
  unfold encrypt, bind, createCEK. rewrite Hown_cek.
  unfold prototype_createCEK, call at 1. fold config. rewrite Hgenerate.
  unfold encryptCek. cbn [Promise_all then_ fst snd]. unfold call at 1.
  rewrite Hwrap.
  assert (Hiv : byteLength (fst (createIV this ((log ++ [generate]) ++ [wrap]))) =
                Z.of_nat (ContentEncryption.iv_length config)).
  { rewrite Hiv_run. cbn [fst]. unfold byteLength, IV. fold zeros IV.
    rewrite Hrandom. unfold zeros, new_Uint8Array. rewrite repeat_length.
    reflexivity. }
  rewrite (aead_run this cek plain_text _ Hiv Haead Htag).
  rewrite Hiv_run. cbn [fst snd]. fold AAD plaintext. rewrite Hencrypt.
  cbn [then_ ret Promise_all fst snd]. unfold serialize.
  cbn [header iv cipher tag].
  fold config auth tag_length.
  rewrite div_to_integer_nonneg by exact Hnonneg.
  assert (Hk : 0 <= tag_length / 8) by (apply Z.div_pos; lia).
  assert (Hoff : Z.to_nat (byteLength combined - tag_length / 8) = split).
  { unfold split, byteLength. rewrite Z2Nat.inj_sub, Nat2Z.id by lia. reflexivity. }
  rewrite slice_prefix, slice_from_suffix, Hoff by lia.
  rewrite <- !app_assoc. reflexivity.
Qed.
End EndToEnd.

(** ** Caller headers *)

Lemma obj_get_app (a b : JsObject) (k : string) :
  obj_get (a ++ b) k = match obj_get a k with
                       | Some v => Some v
                       | None => obj_get b k
                       end.
Proof.
  induction a as [|[k' v'] a IH]; cbn [app obj_get]; [reflexivity|].
  destruct (String.eqb k' k); [reflexivity|exact IH].
Qed.

Section CallerHeaders.
Context {CryptoKey : Type} {U : JoseUtils} {H : Host}
        {C : Encrypter.Cryptographer CryptoKey}.
Import Encrypter.

(** The receiver after a sequence of [addHeader] calls. *)
Lemma add_headers_state (this : This CryptoKey) (kvs : list (string * string)) :
  keyPromise (add_headers this kvs) = keyPromise this /\
  (NoDup (map fst (userHeaders this)) ->
   NoDup (map fst (userHeaders (add_headers this kvs)))) /\
  forall k, obj_get (userHeaders (add_headers this kvs)) k =
            match obj_get (rev kvs) k with
            | Some v => Some v
            | None => obj_get (userHeaders this) k
            end.
Proof.
  revert this. induction kvs as [|[k0 v0] kvs IH]; intros this.
  - cbn. repeat split; auto.
  - unfold add_headers. cbn [fold_left fst snd].
    destruct (IH (addHeader this k0 v0)) as (Hkey & Hnd & Hget).
    fold (add_headers (addHeader this k0 v0) kvs).
    split; [exact Hkey|]. split.
    + intros Hthis. apply Hnd. cbn [addHeader userHeaders].
      apply obj_set_NoDup. exact Hthis.
    + intros k. rewrite Hget. cbn [rev]. rewrite obj_get_app.
      destruct (obj_get (rev kvs) k); [reflexivity|].
      cbn [addHeader userHeaders obj_get].
      destruct (String.eqb k0 k) eqn:E.
      * apply String.eqb_eq in E. subst k0. apply obj_get_set_same.
      * apply String.eqb_neq in E. apply obj_get_set_other.
        intros Heq. apply E. symmetry. exact Heq.
Qed.

(** X10: after [new Encrypter(...)] and any sequence of [addHeader] calls
    on names other than [__proto__], the header that is serialized holds,
    under every name other than ["alg"] and ["enc"], the value of the last
    [addHeader] for that name (none when there was no such call, and none
    under [__proto__]); the caller's names stay distinct and the key
    promise is untouched. *)
Theorem addHeader_last_value_wins (keyPromise0 : Promise CryptoKey)
        (kvs : list (string * string)) :
  ~ In "__proto__" (map fst kvs) ->
  let this := add_headers (constructor keyPromise0) kvs in
  keyPromise this = keyPromise0 /\
  NoDup (map fst (userHeaders this)) /\
  (forall k, obj_get (userHeaders this) k = obj_get (rev kvs) k) /\
  (forall k, k <> "alg" -> k <> "enc" ->
             obj_get (headers_of this) k = obj_get (rev kvs) k) /\
  obj_get (userHeaders this) "__proto__" = None /\
  obj_get (headers_of this) "__proto__" = None.
Proof.
  intros Hproto this. subst this.
  destruct (add_headers_state (constructor keyPromise0) kvs) as (Hkey & Hnd & Hget).
  assert (Hlookup : forall k,
             obj_get (userHeaders (add_headers (constructor keyPromise0) kvs)) k
             = obj_get (rev kvs) k).
  { intros k. rewrite Hget. cbn [constructor userHeaders obj_get].
    destruct (obj_get (rev kvs) k); reflexivity. }
  assert (Hother : forall k, k <> "alg" -> k <> "enc" ->
             obj_get (headers_of (add_headers (constructor keyPromise0) kvs)) k
             = obj_get (rev kvs) k).
  { intros k Halg Henc.
    destruct (headers_of_lookup (add_headers (constructor keyPromise0) kvs))
      as (_ & _ & Hrest).
    rewrite Hrest by assumption. apply Hlookup. }
  assert (Hnone : obj_get (rev kvs) "__proto__" = None).
  { apply obj_get_not_In. rewrite map_rev. intros Hin. apply Hproto.
    apply in_rev. exact Hin. }
  split; [exact Hkey|]. split; [apply Hnd; constructor|]. split; [exact Hlookup|].
  split; [exact Hother|]. split.
  - rewrite Hlookup. exact Hnone.
  - rewrite Hother by discriminate. exact Hnone.
Qed.

End CallerHeaders.

(** ** [Encrypter.encrypt] when a key is wrapped *)

Section WrappedKey.
Context {CryptoKey : Type} {U : JoseUtils} {H : Host}
        {C : Encrypter.Cryptographer CryptoKey}.
Import Encrypter.

Variables (this : This CryptoKey) (presetCEK : option (Promise CryptoKey))
          (log : list (Call CryptoKey)).

Let jweProtectedHeader := Base64Url_encode (JSON_stringify (headers_of this)).
Let IV := cryptographer_createIV.
Let AAD := arrayFromString jweProtectedHeader.
Let cekPromise : Promise CryptoKey :=
  match presetCEK with
  | None => cryptographer_createCek
  | Some preset => preset
  end.

Hypothesis Hwrapping : getKeyEncryptionAlgorithm <> "dir".

(** X11: when the key management is not direct, one CEK serves both
    branches: the preset one when there is one, and then [createCek] is not
    called, otherwise the one [createCek] returns; it is the CEK promise
    handed to [cryptographer.encrypt], and [wrapCek] is called exactly when
    it and the recipient key promise both resolve, on their two values. *)
Theorem one_cek_for_wrap_and_content (uint8Array : bytes) :
  exists calls,
    snd (encrypt this uint8Array presetCEK log) =
      log ++ calls ++ [CreateIV; EncryptContent IV AAD cekPromise uint8Array] /\
    (In CreateCek calls <-> presetCEK = None) /\
    (forall cek key,
        In (WrapCek cek key) calls <->
        keyPromise this = Resolved key /\ cekPromise = Resolved cek) /\
    (forall c, In c calls ->
               c <> CreateIV /\ forall iv aad p data, c <> EncryptContent iv aad p data).
Proof.
  rewrite (encrypt_wrapped_run this uint8Array presetCEK log Hwrapping).
  cbn [snd]. fold jweProtectedHeader IV AAD cekPromise.
  eexists. split; [reflexivity|].
  subst cekPromise.
  split; [|split].
  - destruct presetCEK as [preset|];
      destruct (Promise_all (keyPromise this) _) as [[key cek]|r|];
      cbn [In app]; split; intros Hin; try reflexivity; try discriminate;
      split_in; try discriminate; auto.
  - intros cek key.
    destruct presetCEK as [preset|];
      [destruct preset as [cek0|r0|]|destruct cryptographer_createCek as [cek0|r0|]];
      destruct (keyPromise this) as [key0|r1|];
      cbn [Promise_all In app fst snd]; split;
      try (intros Hin; split_in; try discriminate;
           injection Hin as -> ->; split; reflexivity);
      try (intros [Hk Hc]; discriminate).
    all: intros [Hk Hc]; injection Hk as ->; injection Hc as ->; auto 10.
  - intros c Hin.
    destruct presetCEK as [preset|];
      destruct (Promise_all (keyPromise this) _) as [[key cek]|r|];
      cbn [In app] in Hin; split_in; subst c;
      (split; [discriminate|intros; discriminate]).
Qed.

(** X12: [encryptPlainText] converts the text with [arrayFromUtf8String] and
    asks for the content encryption exactly once, whatever becomes of the
    wrapped key; when the recipient key promise does not resolve, [wrapCek]
    is not called and the call does not resolve. *)
Theorem content_encryption_does_not_wait_for_the_wrap (plainText : string) :
  let uint8Array := arrayFromUtf8String plainText in
  exists calls,
    snd (encryptPlainText this plainText presetCEK log) =
      log ++ calls ++ [CreateIV; EncryptContent IV AAD cekPromise uint8Array] /\
    (forall c, In c calls ->
               c <> CreateIV /\
               forall iv aad p data, c <> EncryptContent iv aad p data) /\
    ((forall key, keyPromise this <> Resolved key) ->
     (forall cek key, ~ In (WrapCek cek key) calls) /\
     forall s, fst (encryptPlainText this plainText presetCEK log) <> Resolved s).
Proof.
  intros uint8Array. unfold encryptPlainText. fold uint8Array.
  rewrite (encrypt_wrapped_run this uint8Array presetCEK log Hwrapping).
  cbn [fst snd]. fold jweProtectedHeader IV AAD cekPromise.
  eexists. split; [reflexivity|]. subst cekPromise. split.
  - intros c Hin.
    destruct presetCEK as [preset|];
      destruct (Promise_all (keyPromise this) _) as [[key cek]|r|];
      cbn [In app] in Hin; split_in; subst c;
      (split; [discriminate|intros; discriminate]).
  - intros Hkey.
    destruct (keyPromise this) as [key0|r1|];
      [exfalso; apply (Hkey key0); reflexivity| |];
      (split;
       [ intros cek key Hin;
         destruct presetCEK as [[cek0|r0|]|];
         [ | | | destruct cryptographer_createCek];
         cbn [Promise_all In app] in Hin; split_in; discriminate
       | intros s;
         destruct presetCEK as [[cek0|r0|]|];
         [ | | | destruct cryptographer_createCek];
         cbn [Promise_all];
         try match goal with
             | |- context [cryptographer_encrypt ?a ?b ?c ?d] =>
                 destruct (cryptographer_encrypt a b c d)
             end;
         cbn [Promise_all fst snd]; discriminate ]).
Qed.
End WrappedKey.

(** ** The composite path under the prototype's [createCEK] *)

Section GeneratedCek.
Context {CryptoKey : Type} {U : JoseUtils} {H : Host} {W : WebCrypto CryptoKey}.
Import JoseJWE.

Variables (this : This CryptoKey) (key_promise : Promise CryptoKey)
          (plain_text : string) (log : list (Call CryptoKey))
          (cek : CryptoKey) (cek_bytes : bytes).

Let config := content_encryption this.
Let auth := ContentEncryption.auth config.

Hypothesis Hown_iv : own_createIV this = None.
Hypothesis Hown_cek : own_createCEK this = None.
Hypothesis Hrandom :
  List.length (crypto_getRandomValues
                 (new_Uint8Array (ContentEncryption.iv_length config)))
  = ContentEncryption.iv_length config.
Hypothesis Haead : Auth.aead auth = false.
Hypothesis Htrunc : Auth.truncated_length auth mod 8 = 0.
Hypothesis Hgenerate :
  subtle_generateKey (ContentEncryption.id config) true ["encrypt"] = Resolved cek.
Hypothesis Hexport : subtle_exportKey "raw" cek = Resolved cek_bytes.
Hypothesis Hcipher_length :
  byteLength cek_bytes * 8 = Alg.length (ContentEncryption.id config).
Hypothesis Hmac_size : Auth.key_size auth <> 0.

(** X13: in composite mode the CEK that the prototype's [createCEK] asks for
    is a key for the cipher algorithm [content_encryption.id] alone, while
    line 268 wants [id.length + key_size] bits. When [generateKey] answers
    with a key of [id.length] bits and the MAC key size is not 0, the export
    is refused as "incorrect cek length": nothing is imported, encrypted or
    signed, and [encrypt] does not resolve. *)
Theorem generated_cek_is_refused_in_composite_mode :
  exists wrap_calls,
    snd (encrypt this key_promise plain_text log) =
      log ++ [GenerateKey (ContentEncryption.id config) true ["encrypt"]] ++
      wrap_calls ++
      [GetRandomValues (new_Uint8Array (ContentEncryption.iv_length config));
       ExportKey "raw" cek] /\
    (forall c, In c wrap_calls -> exists key,
          c = WrapKey "raw" cek key (KeyEncryption.id (key_encryption this))) /\
    (forall s, fst (encrypt this key_promise plain_text log) <> Resolved s) /\
    ((forall r, fst (encryptCek this key_promise (Resolved cek) []) <> Rejected r) ->
     fst (encrypt this key_promise plain_text log) =
       Rejected "encryptPlaintext: incorrect cek length").
Proof.
  assert (Hiv_run : forall l,
             createIV this l =
               (crypto_getRandomValues
                  (new_Uint8Array (ContentEncryption.iv_length config)),
                l ++ [GetRandomValues
                        (new_Uint8Array (ContentEncryption.iv_length config))])).
  { intros l. unfold createIV. rewrite Hown_iv. reflexivity. }
  assert (Hplain : forall l,
             encryptPlaintext this (Resolved cek) plain_text l =
               (Rejected "encryptPlaintext: incorrect cek length",
                l ++ [GetRandomValues
                        (new_Uint8Array (ContentEncryption.iv_length config));
                      ExportKey "raw" cek])).
  { intros l.
    assert (Hiv : byteLength (fst (createIV this l)) =
                  Z.of_nat (ContentEncryption.iv_length config)).
    { rewrite Hiv_run. cbn [fst]. unfold byteLength. rewrite Hrandom. reflexivity. }
    rewrite (composite_run this cek plain_text l Hiv Haead Htrunc cek_bytes Hexport).
    fold config auth. rewrite Hcipher_length.
    assert (Hne : (Alg.length (ContentEncryption.id config) =?
                   Alg.length (ContentEncryption.id config) + Auth.key_size auth)
                  = false) by (apply Z.eqb_neq; lia).
    rewrite Hne. cbn [negb]. rewrite Hiv_run. cbn [snd].
    rewrite <- app_assoc. reflexivity. }
  assert (Hwrap_run : forall l,
             encryptCek this key_promise (Resolved cek) l =
               (fst (encryptCek this key_promise (Resolved cek) []),
                l ++ snd (encryptCek this key_promise (Resolved cek) []))).
  { intros l. unfold encryptCek, call.
    destruct key_promise as [key|r|]; cbn [Promise_all then_ ret fst snd app];
      rewrite ?app_nil_r; reflexivity. }
  assert (Hrun : encrypt this key_promise plain_text log =
            (match fst (encryptCek this key_promise (Resolved cek) []) with
             | Rejected r => Rejected r
             | _ => Rejected "encryptPlaintext: incorrect cek length"
             end,
             log ++ [GenerateKey (ContentEncryption.id config) true ["encrypt"]] ++
             snd (encryptCek this key_promise (Resolved cek) []) ++
             [GetRandomValues (new_Uint8Array (ContentEncryption.iv_length config));
              ExportKey "raw" cek])).
  { unfold encrypt, bind, createCEK. rewrite Hown_cek.
    unfold prototype_createCEK, call. fold config. rewrite Hgenerate.
    rewrite Hwrap_run, Hplain. rewrite <- !app_assoc.
    destruct (fst (encryptCek this key_promise (Resolved cek) [])); reflexivity. }
  rewrite Hrun. cbn [fst snd].
  exists (snd (encryptCek this key_promise (Resolved cek) [])).
  split; [reflexivity|]. split; [|split].
  - intros c. unfold encryptCek, call.
    destruct key_promise as [key|r|]; cbn [Promise_all then_ ret fst snd app In];
      try contradiction.
    intros [Hc|[]]. exists key. symmetry. exact Hc.
  - intros s. destruct (fst (encryptCek this key_promise (Resolved cek) []));
      discriminate.
  - intros Hwrap.
    destruct (fst (encryptCek this key_promise (Resolved cek) [])) as [w|r|];
      try reflexivity.
    exfalso. apply (Hwrap r). reflexivity.
Qed.
End GeneratedCek.

(** ** The further properties on the concrete platform *)

(** X1 on a resolved and on a rejected recipient key. *)
Lemma encryptCek_wraps_iff_both_resolve_witness :
  @JoseJWE.encryptCek bytes Demo.webcrypto (Demo.jwe Demo.A128GCM)
    (Resolved Demo.key16) (Resolved Demo.key32) [] =
    (Resolved (Demo.xor_with Demo.key16 Demo.key32),
     [JoseJWE.WrapKey "raw" Demo.key32 Demo.key16
        (JoseJWE.KeyEncryption.id Demo.RSA_OAEP)]) /\
  @JoseJWE.encryptCek bytes Demo.webcrypto (Demo.jwe Demo.A128GCM)
    (Rejected "no key") (Resolved Demo.key32) [] = (Rejected "no key", []).
Proof.
  destruct (@encryptCek_wraps_iff_both_resolve bytes Demo.webcrypto
              (Demo.jwe Demo.A128GCM) (Resolved Demo.key16) (Resolved Demo.key32) [])
    as (Hboth & _).
  destruct (@encryptCek_wraps_iff_both_resolve bytes Demo.webcrypto
              (Demo.jwe Demo.A128GCM) (Rejected "no key") (Resolved Demo.key32) [])
    as (_ & Hnone & Hkey & _).
  split.
  - rewrite (Hboth Demo.key16 Demo.key32 eq_refl eq_refl). reflexivity.
  - assert (Hkeyless : forall key : bytes, @Rejected bytes "no key" <> Resolved key)
      by (intros key Heq; discriminate Heq).
    destruct (Hnone (or_introl Hkeyless)) as [Hlog _].
    apply injective_projections; cbn [fst snd].
    + apply (Hkey "no key" eq_refl). intros r Heq. discriminate Heq.
    + exact Hlog.
Defined.

(** X2 on the run of [A128CBC-HS256]: the tag is cut from the MAC. *)
Lemma encryptPlaintext_resolves_only_if_witness :
  exists data,
    fst (Demo.run (Demo.jwe Demo.A128CBC_HS256) Demo.key32) = Resolved data /\
    JoseJWE.iv data = repeat 42 16 /\
    JoseJWE.cipher data = [121; 116; 125; 125; 126].
Proof.
  eexists. split; [reflexivity|].
  destruct (@encryptPlaintext_resolves_only_if bytes Demo.utils_le Demo.host
              Demo.webcrypto (Demo.jwe Demo.A128CBC_HS256) (Resolved Demo.key32)
              "hello" [] _ eq_refl)
    as (_ & _ & Hiv & cek & _ & [(Haead & _)|(_ & _ & cek_bytes & mac_key & enc_key
                                              & mac & _ & _ & _ & _ & Hcipher & _)]).
  - discriminate Haead.
  - split; [exact Hiv|reflexivity].
Defined.

(** X3 on a cipher that fails and on a CEK promise that is rejected. *)
Lemma aead_errors_pass_unchanged_witness :
  @JoseJWE.encryptPlaintext bytes Demo.utils_le Demo.host
    (Faulty.webcrypto Faulty.Cipher) (Demo.jwe Demo.A128GCM)
    (Rejected "no cek") "hello" [] =
    (Rejected "no cek", [JoseJWE.GetRandomValues (repeat 0 12)]) /\
  fst (@JoseJWE.encryptPlaintext bytes Demo.utils_le Demo.host
         (Faulty.webcrypto Faulty.Cipher) (Demo.jwe Demo.A128GCM)
         (Resolved Demo.key16) "hello" []) = Rejected "OperationError".
Proof.
  split.
  - destruct (@aead_errors_pass_unchanged bytes Demo.utils_le Demo.host
                (Faulty.webcrypto Faulty.Cipher) (Demo.jwe Demo.A128GCM) "hello" []
                eq_refl eq_refl eq_refl (Rejected "no cek")) as (Hrejected & _).
    exact (Hrejected "no cek" eq_refl).
  - destruct (@aead_errors_pass_unchanged bytes Demo.utils_le Demo.host
                (Faulty.webcrypto Faulty.Cipher) (Demo.jwe Demo.A128GCM) "hello" []
                eq_refl eq_refl eq_refl (Resolved Demo.key16)) as (_ & _ & Hresolved).
    destruct (Hresolved Demo.key16 eq_refl) as (_ & Hfails & _).
    exact (Hfails "OperationError" eq_refl).
Defined.

(** X4 on an output of ten bytes for a tag of sixteen: four bytes of
    ciphertext and six of tag. *)
Lemma aead_split_at_any_length_witness :
  exists data,
    fst (@JoseJWE.encryptPlaintext bytes Demo.utils_le Demo.host Faulty.short_output
           (Demo.jwe Demo.A128GCM) (Resolved Demo.key16) "hello" []) = Resolved data /\
    byteLength (JoseJWE.cipher data) = 4 /\ byteLength (JoseJWE.tag data) = 6.
Proof.
  destruct (@aead_split_at_any_length bytes Demo.utils_le Demo.host Faulty.short_output
              (Demo.jwe Demo.A128GCM) "hello" [] eq_refl eq_refl eq_refl
              Demo.key16 _ eq_refl)
    as (data & Hres & _ & _ & Hshort & _).
  - vm_compute. discriminate.
  - exists data. split; [exact Hres|]. apply Hshort. reflexivity.
Defined.

(** X5 with each primitive failing in turn. *)
Lemma composite_errors_pass_unchanged_witness :
  fst (Faulty.run Faulty.Export) = Rejected "OperationError" /\
  List.length (snd (Faulty.run Faulty.Export)) = 2%nat /\
  List.length (snd (Faulty.run Faulty.ImportEnc)) = 4%nat /\
  List.length (snd (Faulty.run Faulty.ImportMac)) = 5%nat /\
  List.length (snd (Faulty.run Faulty.Cipher)) = 5%nat /\
  List.length (snd (Faulty.run Faulty.Mac)) = 6%nat.
Proof.
  destruct (@composite_errors_pass_unchanged bytes Demo.utils_le Demo.host
              (Faulty.webcrypto Faulty.Export) (Demo.jwe Demo.A128CBC_HS256)
              Demo.key32 "hello" [] eq_refl eq_refl eq_refl Demo.key32)
    as (Hexport & _).
  destruct (@composite_errors_pass_unchanged bytes Demo.utils_le Demo.host
              (Faulty.webcrypto Faulty.ImportEnc) (Demo.jwe Demo.A128CBC_HS256)
              Demo.key32 "hello" [] eq_refl eq_refl eq_refl Demo.key32)
    as (_ & Henc).
  destruct (@composite_errors_pass_unchanged bytes Demo.utils_le Demo.host
              (Faulty.webcrypto Faulty.ImportMac) (Demo.jwe Demo.A128CBC_HS256)
              Demo.key32 "hello" [] eq_refl eq_refl eq_refl Demo.key32)
    as (_ & Hmac).
  destruct (@composite_errors_pass_unchanged bytes Demo.utils_le Demo.host
              (Faulty.webcrypto Faulty.Cipher) (Demo.jwe Demo.A128CBC_HS256)
              Demo.key32 "hello" [] eq_refl eq_refl eq_refl Demo.key32)
    as (_ & Hcipher).
  destruct (@composite_errors_pass_unchanged bytes Demo.utils_le Demo.host
              (Faulty.webcrypto Faulty.Mac) (Demo.jwe Demo.A128CBC_HS256)
              Demo.key32 "hello" [] eq_refl eq_refl eq_refl Demo.key32)
    as (_ & Hsign).
  specialize (Hexport "OperationError" eq_refl).
  destruct (Henc eq_refl eq_refl) as (Henc' & _).
  destruct (Hmac eq_refl eq_refl) as (_ & _ & Hmac' & _).
  destruct (Hcipher eq_refl eq_refl) as (_ & Hcipher' & _).
  destruct (Hsign eq_refl eq_refl) as (_ & _ & _ & Hsign').
  unfold Faulty.run.
  rewrite Hexport.
  rewrite (Henc' "OperationError" eq_refl
             ltac:(intros r Heq; discriminate Heq)).
  rewrite (Hmac' "OperationError" _ eq_refl eq_refl
             ltac:(intros r Heq; discriminate Heq)).
  rewrite (Hcipher' "OperationError" _ eq_refl
             ltac:(intros r Heq; discriminate Heq) eq_refl).
  rewrite (Hsign' "OperationError" _ _ _ eq_refl eq_refl eq_refl eq_refl).
  repeat split.
Defined.

(** X6 on a truncation to 512 bits of a MAC of 32 bytes, and on one to 0. *)
Lemma composite_tag_at_any_length_witness :
  (exists data,
      fst (Demo.run (Demo.jwe (Demo.cbc_hs 512)) Demo.key32) = Resolved data /\
      byteLength (JoseJWE.tag data) = 32) /\
  (exists data,
      fst (Demo.run (Demo.jwe (Demo.cbc_hs 0)) Demo.key32) = Resolved data /\
      JoseJWE.tag data = []).
Proof.
  split.
  - destruct (@composite_tag_at_any_length bytes Demo.utils_le Demo.host Demo.webcrypto
                (Demo.jwe (Demo.cbc_hs 512)) Demo.key32 "hello" []
                eq_refl eq_refl eq_refl Demo.key32 _ _ _ _
                eq_refl eq_refl eq_refl eq_refl eq_refl eq_refl)
      as (data & Hres & _ & _ & Hlen & _).
    + vm_compute. discriminate.
    + exists data. split; [exact Hres|]. rewrite Hlen. reflexivity.
  - destruct (@composite_tag_at_any_length bytes Demo.utils_le Demo.host Demo.webcrypto
                (Demo.jwe (Demo.cbc_hs 0)) Demo.key32 "hello" []
                eq_refl eq_refl eq_refl Demo.key32 _ _ _ _
                eq_refl eq_refl eq_refl eq_refl eq_refl eq_refl)
      as (data & Hres & _ & _ & _ & _ & Hzero).
    + vm_compute. discriminate.
    + exists data. split; [exact Hres|]. apply Hzero. reflexivity.
Defined.

(** X7 on one byte moved from the AAD to the IV's place. *)
Lemma mac_input_determines_its_parts_witness :
  @JoseJWE.mac_input Demo.utils_le [1; 2] [3] [4; 5] <>
  @JoseJWE.mac_input Demo.utils_le [1] [2] [3; 4; 5].
Proof.
  intros Heq.
  destruct (@mac_input_determines_its_parts Demo.utils_le
              [1; 2] [3] [4; 5] [1] [2] [3; 4; 5]) as (Haad & _).
  - vm_compute. reflexivity.
  - vm_compute. reflexivity.
  - reflexivity.
  - reflexivity.
  - reflexivity.
  - exact Heq.
  - discriminate Haad.
Defined.

(** X8 on a rejected recipient key: nothing is wrapped, the content is
    encrypted, the call does not resolve. *)
Lemma encrypt_all_or_nothing_witness :
  snd (@JoseJWE.encrypt bytes Demo.utils_le Demo.host Demo.webcrypto
         (Demo.jwe Demo.A128GCM) (Rejected "no key") "hello" []) =
    snd (@JoseJWE.encryptPlaintext bytes Demo.utils_le Demo.host Demo.webcrypto
           (Demo.jwe Demo.A128GCM) (Resolved (repeat 7 16)) "hello"
           [JoseJWE.GenerateKey
              (JoseJWE.ContentEncryption.id Demo.A128GCM) true ["encrypt"]]) /\
  fst (@JoseJWE.encrypt bytes Demo.utils_le Demo.host Demo.webcrypto
         (Demo.jwe Demo.A128GCM) (Rejected "no key") "hello" [])
  <> Resolved EmptyString.
Proof.
  destruct (@encrypt_all_or_nothing bytes Demo.utils_le Demo.host Demo.webcrypto
              (Demo.jwe Demo.A128GCM) (Rejected "no key") "hello" [])
    as (Hlog & _ & Hkey).
  split.
  - rewrite Hlog. reflexivity.
  - apply Hkey. intros key Heq. discriminate Heq.
Defined.

(** X9 on ["hello"] under [A128GCM]. *)
Lemma encrypt_aead_end_to_end_witness :
  fst (@JoseJWE.encrypt bytes Demo.utils_le Demo.host Demo.webcrypto
         (Demo.jwe Demo.A128GCM) (Resolved Demo.key16) "hello" []) =
    Resolved
      "eyJhbGciOiJSU0EtT0FFUCIsImVuYyI6IkExMjhHQ00ifQ.BgYGBgYGBgYGBgYGBgYGBg.KioqKioqKioqKioq.b2Jra2g.DAwMDAwMDAwMDAwMDAwMDA".
Proof.
  rewrite (@encrypt_aead_end_to_end bytes Demo.utils_le Demo.host Demo.webcrypto
             (Demo.jwe Demo.A128GCM) Demo.key16 (repeat 7 16) "hello" [] _ _
             eq_refl eq_refl eq_refl eq_refl eq_refl
             ltac:(vm_compute; discriminate)
             eq_refl eq_refl eq_refl
             ltac:(vm_compute; discriminate)).
  vm_compute. reflexivity.
Defined.

(** X10 on two values for one name. *)
Lemma addHeader_last_value_wins_witness :
  obj_get (@Encrypter.headers_of bytes (Demo.cryptographer "dir")
             (add_headers (Encrypter.constructor (Resolved Demo.key16))
                [("kid", "1"); ("cty", "JWT"); ("kid", "2")])) "kid" = Some "2".
Proof.
  destruct (@addHeader_last_value_wins bytes (Demo.cryptographer "dir")
              (Resolved Demo.key16) [("kid", "1"); ("cty", "JWT"); ("kid", "2")])
    as (_ & _ & _ & Hlast & _).
  - cbn. intuition discriminate.
  - rewrite Hlast; [reflexivity|discriminate|discriminate].
Defined.

(** X11 without and with a preset CEK. *)
Lemma one_cek_for_wrap_and_content_witness :
  (exists calls,
      snd (Demo.run_encrypter "RSA-OAEP" None) =
        [] ++ calls ++
        [Encrypter.CreateIV;
         Encrypter.EncryptContent (repeat 42 12)
           (Demo.char_codes
              "eyJraWQiOiIxIiwiYWxnIjoiUlNBLU9BRVAiLCJlbmMiOiJBMTI4R0NNIn0")
           (Resolved (repeat 7 16)) [1; 2; 3]] /\
      In Encrypter.CreateCek calls) /\
  (exists calls,
      snd (Demo.run_encrypter "RSA-OAEP" (Some (Resolved Demo.key32))) =
        [] ++ calls ++
        [Encrypter.CreateIV;
         Encrypter.EncryptContent (repeat 42 12)
           (Demo.char_codes
              "eyJraWQiOiIxIiwiYWxnIjoiUlNBLU9BRVAiLCJlbmMiOiJBMTI4R0NNIn0")
           (Resolved Demo.key32) [1; 2; 3]] /\
      ~ In Encrypter.CreateCek calls /\
      In (Encrypter.WrapCek Demo.key32 Demo.key16) calls).
Proof.
  split.
  - destruct (@one_cek_for_wrap_and_content bytes Demo.utils_le Demo.host
                (Demo.cryptographer "RSA-OAEP") Demo.encrypter None []
                ltac:(discriminate) [1; 2; 3])
      as (calls & Hlog & Hcreate & _).
    exists calls. split; [exact Hlog|]. apply Hcreate. reflexivity.
  - destruct (@one_cek_for_wrap_and_content bytes Demo.utils_le Demo.host
                (Demo.cryptographer "RSA-OAEP") Demo.encrypter
                (Some (Resolved Demo.key32)) []
                ltac:(discriminate) [1; 2; 3])
      as (calls & Hlog & Hcreate & Hwrap & _).
    exists calls. split; [exact Hlog|]. split.
    + intros Hin. apply Hcreate in Hin. discriminate Hin.
    + apply Hwrap. split; reflexivity.
Defined.

(** X12 on a rejected recipient key. *)
Lemma content_encryption_does_not_wait_for_the_wrap_witness :
  exists calls,
    snd (@Encrypter.encryptPlainText bytes Demo.utils_le Demo.host
           (Demo.cryptographer "RSA-OAEP") Faulty.keyless "hello" None []) =
      [] ++ calls ++
      [Encrypter.CreateIV;
       Encrypter.EncryptContent (repeat 42 12)
         (Demo.char_codes "eyJhbGciOiJSU0EtT0FFUCIsImVuYyI6IkExMjhHQ00ifQ")
         (Resolved (repeat 7 16)) (Demo.char_codes "hello")] /\
    forall cek key, ~ In (Encrypter.WrapCek cek key) calls.
Proof.
  destruct (@content_encryption_does_not_wait_for_the_wrap bytes Demo.utils_le
              Demo.host (Demo.cryptographer "RSA-OAEP") Faulty.keyless None []
              ltac:(discriminate) "hello")
    as (calls & Hlog & _ & Hkeyless).
  exists calls. split; [exact Hlog|].
  apply Hkeyless. intros key Heq. discriminate Heq.
Defined.

(** X13 on [A128CBC-HS256]: a CEK of 128 bits where 256 are wanted. *)
Lemma generated_cek_is_refused_in_composite_mode_witness :
  fst (@JoseJWE.encrypt bytes Demo.utils_le Demo.host Demo.webcrypto
         (Demo.jwe Demo.A128CBC_HS256) (Resolved Demo.key16) "hello" []) =
    Rejected "encryptPlaintext: incorrect cek length".
Proof.
  destruct (@generated_cek_is_refused_in_composite_mode bytes Demo.utils_le
              Demo.host Demo.webcrypto (Demo.jwe Demo.A128CBC_HS256)
              (Resolved Demo.key16) "hello" [] (repeat 7 16) (repeat 7 16)
              eq_refl eq_refl eq_refl eq_refl eq_refl eq_refl eq_refl eq_refl
              ltac:(vm_compute; discriminate))
    as (calls & _ & _ & _ & Hreason).
  apply Hreason. intros r Heq. discriminate Heq.
Defined.
